(** * Business Turku data-loading scripts: ingestion-to-embedding pipeline

    A shallow embedding of the company pipeline ([company/index.js]) and of
    the investor pipeline ([investor/index.js]): classification cache,
    translator, registry adapter, text normalizer, batch vectorizer, store
    writer and the two [main] functions, followed by the properties the
    specification states about them.

    Modelling conventions.
    - A JavaScript string is the list of its UTF-16 code units.
    - An object used as a dictionary is the finite map of its own
      properties together with what a plain object inherits from
      [Object.prototype]; assigning under the key [__proto__] does not add
      a property.
    - The HTTP services and the Supabase client are an environment of
      oracles; every request made is appended to a trace, and an oracle may
      answer differently depending on the trace so far.
    - An [async] function is a computation over the process state (the
      module-level cache and the trace) that returns a value or throws. *)

From stdpp Require Import gmap strings list fin_maps.
From Stdlib Require Import NArith ZArith Ascii.
From Equations Require Import Equations.

(** ** JavaScript strings *)

Module JsString.

Local Open Scope N_scope.

Abbreviation jsstring := (list N).

(** Code points of a UTF-8 source literal (one, two and three byte forms:
    the Basic Multilingual Plane, which covers every literal of the
    scripts). *)
Fixpoint utf8 (s : string) : jsstring :=
  match s with
  | EmptyString => []
  | String a rest =>
      let b0 := N_of_ascii a in
      if b0 <? 128 then b0 :: utf8 rest
      else match rest with
           | EmptyString => [b0]
           | String a1 rest1 =>
               let b1 := N_of_ascii a1 in
               if b0 <? 224 then
                 ((b0 - 192) * 64 + (b1 - 128)) :: utf8 rest1
               else match rest1 with
                    | EmptyString => [b0; b1]
                    | String a2 rest2 =>
                        let b2 := N_of_ascii a2 in
                        ((b0 - 224) * 4096 + (b1 - 128) * 64 + (b2 - 128))
                          :: utf8 rest2
                    end
           end
  end.

Definition js (s : string) : jsstring := utf8 s.

(** [/[äöåÄÖÅ]/] *)
Definition isFinnishChar (c : N) : bool :=
  (c =? 228) || (c =? 246) || (c =? 229) || (c =? 196) || (c =? 214) || (c =? 197).

(** [[a-zA-Z]] *)
Definition isAsciiLetter (c : N) : bool :=
  ((97 <=? c) && (c <=? 122)) || ((65 <=? c) && (c <=? 90)).

(** [\s]: ECMAScript WhiteSpace and LineTerminator code units. *)
Definition isWhiteSpace (c : N) : bool :=
  ((9 <=? c) && (c <=? 13)) || (c =? 32) || (c =? 160) || (c =? 5760)
  || ((8192 <=? c) && (c <=? 8202)) || (c =? 8232) || (c =? 8233)
  || (c =? 8239) || (c =? 8287) || (c =? 12288) || (c =? 65279).

Definition comma : N := 44.
Definition period : N := 46.
Definition hyphen : N := 45.

(** [[a-zA-Z\s,.-]] *)
Definition isEnglishPatternChar (c : N) : bool :=
  isAsciiLetter c || isWhiteSpace c || (c =? comma) || (c =? period) || (c =? hyphen).

(** [finnishChars.test(text)] *)
Definition finnishChars_test (text : jsstring) : bool := existsb isFinnishChar text.

(** [/^[a-zA-Z\s,.-]+$/.test(text)] *)
Definition englishPattern_test (text : jsstring) : bool :=
  match text with
  | [] => false
  | _ => forallb isEnglishPatternChar text
  end.

(** Truthiness of a string value: [undefined], [null] and [''] are falsy. *)
Definition truthy (s : option jsstring) : bool :=
  match s with
  | Some (_ :: _) => true
  | _ => false
  end.

(** [s || d] *)
Definition orElse (s : option jsstring) (d : jsstring) : jsstring :=
  match s with
  | Some (c :: r) => c :: r
  | _ => d
  end.

(** [a || b] where both may be undefined. *)
Definition orOpt (a b : option jsstring) : option jsstring :=
  if truthy a then a else b.

Fixpoint trimStart (s : jsstring) : jsstring :=
  match s with
  | [] => []
  | c :: r => if isWhiteSpace c then trimStart r else s
  end.

Fixpoint trimEnd (s : jsstring) : jsstring :=
  match s with
  | [] => []
  | c :: r => if forallb isWhiteSpace (c :: r) then [] else c :: trimEnd r
  end.

(** [s.trim()] *)
Definition trim (s : jsstring) : jsstring := trimEnd (trimStart s).

(** [s.replace(/^,\s*/, '')] *)
Definition stripLeadingComma (s : jsstring) : jsstring :=
  match s with
  | c :: r => if c =? comma then trimStart r else s
  | [] => []
  end.

(** [s.replace(/,\s*$/, '')]: the leftmost comma followed only by white
    space up to the end is where the match starts. *)
Fixpoint stripTrailingComma (s : jsstring) : jsstring :=
  match s with
  | [] => []
  | c :: r =>
      if (c =? comma) && forallb isWhiteSpace r then []
      else c :: stripTrailingComma r
  end.

End JsString.
Import JsString.

(** ** Plain JavaScript objects *)

Module JsObject.

(** The names of the properties of [Object.prototype]; a plain object
    inherits them all. *)
Definition objectPrototypeMembers : list jsstring :=
  map js ["constructor"; "__defineGetter__"; "__defineSetter__"; "hasOwnProperty";
          "__lookupGetter__"; "__lookupSetter__"; "isPrototypeOf";
          "propertyIsEnumerable"; "toString"; "valueOf"; "__proto__";
          "toLocaleString"]%string.

Definition protoKey : jsstring := js "__proto__".

Definition isInherited (key : jsstring) : bool :=
  bool_decide (key ∈ objectPrototypeMembers).

(** What [object[key]] evaluates to on an object whose prototype is
    [Object.prototype]: the value of an own property, the inherited member
    of that name (a function, or [Object.prototype] itself for
    [__proto__]), or [undefined]. *)
Inductive Member (V : Type) : Type :=
| Own (v : V)
| Inherited (member : jsstring)
| Undefined.
Arguments Own {V} v.
Arguments Inherited {V} member.
Arguments Undefined {V}.

Definition getMember {V} (own : gmap jsstring V) (key : jsstring) : Member V :=
  match own !! key with
  | Some v => Own v
  | None => if isInherited key then Inherited key else Undefined
  end.

(** [object[key] = value] for a value that is a number or a string: under
    the key [__proto__] the inherited setter ignores such a value and no
    property is added. *)
Definition setPrimitive {V} (own : gmap jsstring V) (key : jsstring) (v : V)
  : gmap jsstring V :=
  if bool_decide (key = protoKey) then own else <[ key := v ]> own.

(** [member.name] of an inherited member: a function carries its name,
    [constructor] being the function [Object]; [Object.prototype] has no
    [name]. *)
Definition memberName (member : jsstring) : option jsstring :=
  if bool_decide (member = protoKey) then None
  else if bool_decide (member = js "constructor") then Some (js "Object")
  else Some member.

End JsObject.
Import JsObject.

(** ** Data model *)

(** A thrown value, identified by its message. *)
Definition Exn := string.

Inductive Result (A : Type) : Type :=
| Ok (a : A)
| Throw (e : Exn).
Arguments Ok {A} a.
Arguments Throw {A} e.

(** The settled state of a promise returned by an HTTP client. *)
Inductive Response (A : Type) : Type :=
| Resolved (data : A)
| Rejected (e : Exn).
Arguments Resolved {A} data.
Arguments Rejected {A} e.

(** *** Statistics Finland classification items *)

Record ItemName := {
  lang : option jsstring;
  itemName : option jsstring
}.

Record ExplanatoryNote := {
  noteLang : option (list jsstring);
  includes : option (list jsstring)
}.

Record ClassificationItem := {
  code : option jsstring;
  classificationItemNames : option (list ItemName);
  explanatoryNotes : option (list ExplanatoryNote)
}.

(** [response.data] of the classification service: an array, or a single
    value that the script wraps in an array.  An element is [None] when it
    is [null]. *)
Inductive ClassificationData :=
| ClassificationArray (items : list (option ClassificationItem))
| ClassificationSingle (item : option ClassificationItem).

(** An entry of the code-to-classification cache:
    [{ name, description, isFinnish }]. *)
Record Classification := {
  className : jsstring;
  classDescription : jsstring;
  isFinnish : bool
}.

(** The code-to-classification object: its own entries, and the entry that
    an assignment under the key [__proto__] has made its prototype, if
    any (that entry's own prototype is [Object.prototype]). *)
Record ClassificationTable := {
  ownEntries : gmap jsstring Classification;
  replacedPrototype : option Classification
}.

(** [{}] *)
#[global] Instance ClassificationTable_empty : Empty ClassificationTable :=
  {| ownEntries := ∅; replacedPrototype := None |}.

(** [table[key] = entry] *)
Definition assignEntry (table : ClassificationTable) (key : jsstring)
    (entry : Classification) : ClassificationTable :=
  if bool_decide (key = protoKey)
  then {| ownEntries := ownEntries table; replacedPrototype := Some entry |}
  else {| ownEntries := <[ key := entry ]> (ownEntries table);
          replacedPrototype := replacedPrototype table |}.

(** What [table[key]] evaluates to. *)
Inductive TableValue :=
| EntryValue (entry : Classification)
| StringValue (s : jsstring)
| BooleanValue (b : bool)
| MemberValue (member : jsstring)
| UndefinedValue.

(** [table[key]]: an own entry; else, under [__proto__], the prototype;
    else a field of the entry that was made the prototype; else a member
    of [Object.prototype]. *)
Definition lookupEntry (table : ClassificationTable) (key : jsstring) : TableValue :=
  match ownEntries table !! key with
  | Some entry => EntryValue entry
  | None =>
      let fromObjectPrototype :=
        if isInherited key then MemberValue key else UndefinedValue in
      match replacedPrototype table with
      | Some entry =>
          if bool_decide (key = protoKey) then EntryValue entry
          else if bool_decide (key = js "name") then StringValue (className entry)
          else if bool_decide (key = js "description")
               then StringValue (classDescription entry)
          else if bool_decide (key = js "isFinnish") then BooleanValue (isFinnish entry)
          else fromObjectPrototype
      | None => fromObjectPrototype
      end
  end.

(** Truthiness of [table[key]]. *)
Definition truthyValue (v : TableValue) : bool :=
  match v with
  | EntryValue _ | MemberValue _ => true
  | StringValue s => match s with [] => false | _ => true end
  | BooleanValue b => b
  | UndefinedValue => false
  end.

(** [v.name]: [undefined] on a string, on a boolean and on
    [Object.prototype]. *)
Definition valueName (v : TableValue) : option jsstring :=
  match v with
  | EntryValue entry => Some (className entry)
  | MemberValue member => memberName member
  | _ => None
  end.

(** Truthiness of [v.isFinnish]. *)
Definition valueIsFinnish (v : TableValue) : bool :=
  match v with
  | EntryValue entry => isFinnish entry
  | _ => false
  end.

(** *** PRH registry records *)

Record BusinessId := {
  value : option jsstring;
  idRegistrationDate : option jsstring
}.

(** [company.businessId]: the nested shape, the flat shape, or absent. *)
Inductive BusinessIdField :=
| IdNested (b : BusinessId)
| IdFlat (s : jsstring)
| IdAbsent.

Record NameEntry := {
  nameType : option jsstring;
  name : option jsstring;
  endDate : option jsstring
}.

Record BusinessLineDescription := {
  languageCode : option jsstring;
  description : option jsstring
}.

Record MainBusinessLine := {
  type : option jsstring;
  descriptions : option (list BusinessLineDescription)
}.

Record PostOffice := {
  postLanguageCode : option jsstring;
  city : option jsstring
}.

Record Address := {
  addressType : option Z;
  street : option jsstring;
  buildingNumber : option jsstring;
  entrance : option jsstring;
  apartmentNumber : option jsstring;
  postCode : option jsstring;
  postOffices : option (list PostOffice)
}.

Record RawCompany := {
  businessId : BusinessIdField;
  registrationDate : option jsstring;
  names : option (list NameEntry);
  mainBusinessLine : option MainBusinessLine;
  addresses : option (list Address)
}.

(** [response.data] of the listing service. *)
Inductive ListingData :=
| ListingArray (records : list RawCompany)
| ListingObject (results companies : option (list RawCompany)).

(** *** Normalized companies *)

(** The value the adapter stores as business id: a string, or the nested
    object itself when it carries no usable [value]. *)
Inductive BusinessIdValue :=
| IdString (s : jsstring)
| IdObject (b : BusinessId).

Record CompanyDetails := {
  detailsName : jsstring;
  detailsDescription : jsstring;
  detailsAddress : jsstring;
  detailsRegistrationDate : option jsstring;
  (** [None] when the script leaves it [undefined]. *)
  categoryName : option jsstring
}.

Record Company := {
  companyName : jsstring;
  companyBusinessId : BusinessIdValue;
  industryCode : jsstring;
  details : CompanyDetails
}.

(** *** Investors *)

Record RawInvestor := {
  investorId : jsstring;
  investorName : option jsstring;
  role : option jsstring;
  firm : option jsstring;
  location : option jsstring;
  preferred_industries : option (list jsstring);
  business_models : option (list jsstring);
  preferred_rounds : option (list jsstring);
  geo_focus : option (list jsstring);
  check_size_range : option jsstring;
  investment_thesis : option jsstring;
  avoid_industries : option (list jsstring)
}.

Record Investor := {
  investor_id : jsstring;
  processedName : option jsstring;
  investorDetails : RawInvestor
}.

(** *** Store rows *)

Inductive EntityRow :=
| CompanyRow (business_id : BusinessIdValue) (name : jsstring) (details : CompanyDetails)
| InvestorRow (investor_id : jsstring) (details : RawInvestor).

(** A row read back from an entity table: surrogate id and natural key. *)
Record IdRecord := {
  rowId : Z;
  natural_key : jsstring
}.

(** The [{ data, error }] answer of a select. *)
Inductive SelectResult :=
| SelectData (records : list IdRecord)
| SelectError (e : Exn).

Section Model.

Context {Vec : Type}.

Record EmbeddingItem := { embedding : Vec }.

(** A row for an embeddings table: what the id map gives for the entity's
    natural key, and the vector at the entity's index, [None] when there is
    none. *)
Record EmbeddingRow := {
  entity_id : Member Z;
  embeddings : option Vec
}.

(** Everything the process asks of the outside world, in order. *)
Inductive Event :=
| GetClassifications
| GetCompanies (page : nat)
| PostTranslate (text : jsstring)
| PostEmbeddings (input : list jsstring)
| UpsertEntities (table : string) (rows : list EntityRow)
| SelectIds (table : string) (keys : list jsstring)
| UpsertEmbeddings (table : string) (rows : list EmbeddingRow)
| Sleep (ms : Z).

(** The environment of a run: configuration, the platform's date parsing,
    and the answers of the collaborators given the trace so far.  A
    [Rejected] answer stands for any failure of the awaited request,
    including a response whose shape makes the script throw while reading
    it. *)
Record Env := {
  SUPABASE_URL : option jsstring;
  SUPABASE_ANON_KEY : option jsstring;
  VOYAGE_API_KEY : option jsstring;
  DEEPL_API_KEY : option jsstring;
  (** [parseInt(process.env.BATCH_SIZE)], [None] for [NaN]. *)
  BATCH_SIZE_env : option Z;
  (** [new Date(s).getFullYear()], [None] for [NaN]. *)
  getFullYear : jsstring -> option Z;
  statisticsFi : list Event -> Response ClassificationData;
  (** The listing service, by page number: a run asks for a page at most
      once. *)
  prh : nat -> Response ListingData;
  (** [response.data.translations[0].text] of the translation service. *)
  deepl : list Event -> jsstring -> Response (option jsstring);
  (** [response.data.data] of the embedding service. *)
  voyage : list Event -> list jsstring -> Response (list EmbeddingItem);
  (** The [error] field answered to an upsert. *)
  upsertEntities : list Event -> string -> list EntityRow -> option Exn;
  selectIds : list Event -> string -> list jsstring -> SelectResult;
  upsertEmbeddings : list Event -> string -> list EmbeddingRow -> option Exn;
  (** [JSON.parse(readFileSync('../investors.json'))] *)
  investorsJson : Response (list RawInvestor)
}.

(** Process state: the module-level classification cache and the trace. *)
Record World := {
  industryClassifications : option ClassificationTable;
  trace : list Event
}.

(** ** Async computations *)

Definition Async (A : Type) : Type := World -> Result A * World.

Definition ret {A} (a : A) : Async A := fun w => (Ok a, w).

Definition bind {A B} (m : Async A) (k : A -> Async B) : Async B :=
  fun w =>
    match m w with
    | (Ok a, w') => k a w'
    | (Throw e, w') => (Throw e, w')
    end.

Definition throw {A} (e : Exn) : Async A := fun w => (Throw e, w).

(** [try { m } catch (error) { handler(error) }] *)
Definition tryCatch {A} (m : Async A) (handler : Exn -> Async A) : Async A :=
  fun w =>
    match m w with
    | (Ok a, w') => (Ok a, w')
    | (Throw e, w') => handler e w'
    end.

(** The state after the events [evs] have been added to the trace. *)
Definition logged (w : World) (evs : list Event) : World :=
  {| industryClassifications := industryClassifications w;
     trace := trace w ++ evs |}.

Definition emit (ev : Event) : Async unit :=
  fun w => (Ok tt, logged w [ev]).

(** An awaited HTTP request: logged, then resolved or rejected by the
    collaborator. *)
Definition await {A} (ev : Event) (answer : list Event -> Response A) : Async A :=
  fun w =>
    match emit ev w with
    | (_, w') =>
        match answer (trace w) with
        | Resolved data => (Ok data, w')
        | Rejected e => (Throw e, w')
        end
    end.

Definition getCache : Async (option ClassificationTable) :=
  fun w => (Ok (industryClassifications w), w).

Definition setCache (m : ClassificationTable) : Async unit :=
  fun w => (Ok tt, {| industryClassifications := Some m; trace := trace w |}).

#[global] Instance Async_ret : MRet Async := @ret.
#[global] Instance Async_bind : MBind Async := fun A B k m => bind m k.

(** A computation observed for a bounded number of loop iterations: it has
    returned, has thrown, or is still running ([None]) in the state
    reached so far. *)
Definition Partial (A : Type) : Type := World -> option (Result A) * World.

Definition finished {A} (m : Async A) : Partial A :=
  fun w => match m w with (r, w') => (Some r, w') end.

(** [m] and then, unless it throws, [k]. *)
Definition andThen {A B} (m : Async A) (k : A -> Partial B) : Partial B :=
  fun w =>
    match m w with
    | (Ok a, w') => k a w'
    | (Throw e, w') => (Some (Throw e), w')
    end.

(** [try { m } catch (error) { handler(error) }] around such a
    computation. *)
Definition tryCatchPartial {A} (m : Partial A) (handler : Exn -> Async A) : Partial A :=
  fun w =>
    match m w with
    | (Some (Throw e), w') => finished (handler e) w'
    | other => other
    end.

Variable env : Env.
(** ** Small JavaScript helpers *)

(** [o === s] for a property that may be absent. *)
Definition isStr (o : option jsstring) (s : jsstring) : bool :=
  bool_decide (o = Some s).

(** [l.slice(start, stop)] for indices within [0, 2^53). *)
Definition slice {A} (l : list A) (start stop : nat) : list A :=
  take (stop - start) (drop start l).

(** [l.indexOf(x)] *)
Fixpoint indexOf (x : jsstring) (l : list jsstring) : Z :=
  match l with
  | [] => (-1)%Z
  | y :: r =>
      if bool_decide (y = x) then 0%Z
      else let k := indexOf x r in
           if (k <? 0)%Z then (-1)%Z else (k + 1)%Z
  end.

(** [i || -1] for an index that may be [undefined]. *)
Definition orMinusOne (i : option Z) : Z :=
  match i with
  | Some z => if (z =? 0)%Z then (-1)%Z else z
  | None => (-1)%Z
  end.

(** [parts.join(sep)] *)
Fixpoint join (sep : jsstring) (parts : list jsstring) : jsstring :=
  match parts with
  | [] => []
  | [p] => p
  | p :: rest => p ++ sep ++ join sep rest
  end.

(** [l.forEach(f)]: the callbacks run in order; the first throw ends the
    iteration. *)
Fixpoint forEach {A} (f : A -> Async unit) (l : list A) : Async unit :=
  match l with
  | [] => ret tt
  | x :: rest => f x ;; forEach f rest
  end.

(** A loop that awaits [f] on each element in turn and pushes the result. *)
Fixpoint forPush {A B} (f : A -> Async B) (l : list A) : Async (list B) :=
  match l with
  | [] => ret []
  | x :: rest => y ← f x; ys ← forPush f rest; ret (y :: ys)
  end.

(** A Supabase call: logged; its [{ data, error }] answer is returned, never
    thrown. *)
Definition query {A} (ev : Event) (answer : list Event -> A) : Async A :=
  fun w =>
    match emit ev w with
    | (_, w') => (Ok (answer (trace w)), w')
    end.

(** ** Classification cache *)

Definition nameInLanguage (l : jsstring) (ns : list ItemName) : option ItemName :=
  List.find (fun n => isStr (lang n) l) ns.

Definition classificationName (item : ClassificationItem) : jsstring :=
  match classificationItemNames item with
  | Some ns =>
      let englishName := nameInLanguage (js "en") ns in
      let finnishName := nameInLanguage (js "fi") ns in
      orElse (orOpt (englishName ≫= itemName) (finnishName ≫= itemName)) []
  | None => []
  end.

Definition classificationDescription (item : ClassificationItem) : jsstring :=
  match explanatoryNotes item with
  | Some notes =>
      match notes !! 0%nat with
      | Some note =>
          match includes note with
          | Some inc =>
              let englishIndex := orMinusOne (indexOf (js "en") <$> noteLang note) in
              let finnishIndex := orMinusOne (indexOf (js "fi") <$> noteLang note) in
              if (0 <=? englishIndex)%Z then orElse (inc !! Z.to_nat englishIndex) []
              else if (0 <=? finnishIndex)%Z then orElse (inc !! Z.to_nat finnishIndex) []
              else orElse (inc !! 0%nat) []
          | None => []
          end
      | None => []
      end
  | None => []
  end.

Definition classificationIsFinnish (item : ClassificationItem) : bool :=
  negb (match classificationItemNames item with
        | Some ns => existsb (fun n => isStr (lang n) (js "en")) ns
        | None => false
        end).

(** The body of [data.forEach(item => ...)]: reading [item.code] of a
    [null] element throws. *)
Definition cacheItem (item : option ClassificationItem) : Async unit :=
  match item with
  | None => throw "Cannot read properties of null (reading 'code')"
  | Some item =>
      match code item with
      | Some (c :: r) =>
          cached ← getCache;
          setCache (assignEntry (default ∅ cached) (c :: r)
                      {| className := classificationName item;
                         classDescription := classificationDescription item;
                         isFinnish := classificationIsFinnish item |})
      | _ => ret tt
      end
  end.

(** [Array.isArray(response.data) ? response.data : [response.data]] *)
Definition classificationItems (response : ClassificationData)
  : list (option ClassificationItem) :=
  match response with
  | ClassificationArray items => items
  | ClassificationSingle item => [item]
  end.

Definition fetchIndustryClassifications : Async ClassificationTable :=
  cached ← getCache;
  match cached with
  | Some classifications => ret classifications
  | None =>
      tryCatch
        (response ← await GetClassifications (statisticsFi env);
         let data := classificationItems response in
         setCache ∅ ;;
         forEach cacheItem data ;;
         cached ← getCache;
         ret (default ∅ cached))
        (fun _ => ret ∅)
  end.

(** ** Translator *)

Definition translations : gmap jsstring jsstring :=
  list_to_map [
    (js "Maatalous, metsätalous ja kalatalous",
     js "Agriculture, forestry and fishing");
    (js "Kaivostoiminta ja louhinta",
     js "Mining and quarrying");
    (js "Teollisuus",
     js "Manufacturing");
    (js "Sähkö-, kaasu- ja lämpöhuolto, jäähdytysliiketoiminta",
     js "Electricity, gas, steam and air conditioning supply");
    (js "Vesihuolto, viemäri- ja jätevesihuolto, jätehuolto ja muu ympäristön puhtaanapito",
     js "Water supply; sewerage, waste management");
    (js "Rakentaminen",
     js "Construction");
    (js "Tukku- ja vähittäiskauppa",
     js "Wholesale and retail trade");
    (js "Kuljetus ja varastointi",
     js "Transportation and storage");
    (js "Majoitus- ja ravitsemustoiminta",
     js "Accommodation and food service activities");
    (js "Informaatio ja viestintä",
     js "Information and communication");
    (js "Rahoitus- ja vakuutustoiminta",
     js "Financial and insurance activities");
    (js "Kiinteistöalan toiminta",
     js "Real estate activities");
    (js "Ammatillinen, tieteellinen ja tekninen toiminta",
     js "Professional, scientific and technical activities");
    (js "Hallinto- ja tukipalvelutoiminta",
     js "Administrative and support service activities");
    (js "Julkinen hallinto ja maanpuolustus",
     js "Public administration and defence");
    (js "Koulutus",
     js "Education");
    (js "Terveys- ja sosiaalipalvelut",
     js "Human health and social work activities");
    (js "Taiteet, viihde ja virkistys",
     js "Arts, entertainment and recreation");
    (js "Muu palvelutoiminta",
     js "Other service activities");
    (js "Asuntojen ja asuinkiinteistöjen hallinta",
     js "Residential property management");
    (js "Muualla luokittelematon muu liike-elämän tukipalvelutoiminta",
     js "Other business support services not elsewhere classified");
    (js "Hevosten ja muiden hevoseläinten kasvatus",
     js "Raising of horses and other equines");
    (js "Sähköasennus",
     js "Electrical installation");
    (js "Muuraustyöt",
     js "Masonry work");
    (js "Hammaslääkäripalvelut",
     js "Dental practice activities");
    (js "Muu lääkintä- ja hammaslääkintäinstrumenttien ja -tarvikkeiden valmistus",
     js "Other manufacture of medical and dental instruments and supplies");
    (js "Tieliikenteen muu kuin säännöllinen henkilökuljetus",
     js "Other passenger land transport");
    (js "Rakennuspaikan valmistelutyöt",
     js "Site preparation");
    (js "Muu kiinteistöalan toiminta palkkio- tai sopimusperhsteella",
     js "Other real estate activities on a fee or contract basis");
    (js "Muualla luokittelematon muu rahoituspalvelutoiminta",
     js "Other financial service activities not elsewhere classified");
    (js "Kiinteistöjä koskevat välityspalvelut",
     js "Real estate agency services");
    (js "Marjojen, pähkinöiden ja muiden puissa ja pensaissa kasvavien hedelmien viljely",
     js "Growing of berries, nuts and other tree and bush fruits");
    (js "Sähkönjakelu- ja valvontalaitteiden valmistus",
     js "Manufacture of electricity distribution and control apparatus");
    (js "Muu rahoitusta palveleva toiminta pois lukien vakuutus- ja eläkevakuutustoiminta",
     js "Other activities auxiliary to financial services, excluding insurance and pension funding");
    (js "Palo- ja pelastustoimi",
     js "Fire and rescue services");
    (js "Muualla luokittelematon muu liike-elämän tukipalve",
     js "Other business support services");
    (js "Tieliikenteen muu kuin säännöllinen henkilökuljetu",
     js "Other passenger land transport");
    (js "Muu kiinteistöalan toiminta palkkio- tai sopimuspe",
     js "Other real estate activities on fee or contract basis");
    (js "Muualla luokittelematon muu rahoituspalvelutoimint",
     js "Other financial service activities");
    (js "Marjojen, pähkinöiden ja muiden puissa ja pensaiss",
     js "Growing of berries, nuts and tree fruits");
    (js "Muu lääkintä- ja hammaslääkintäinstrumenttien ja -",
     js "Other manufacture of medical and dental instruments");
    (js "Muu rahoitusta palveleva toiminta pois lukien vaku",
     js "Other activities auxiliary to financial services")
  ].

(** What the fallback returns: a text, or the member of [Object.prototype]
    that the lookup found. *)
Inductive FallbackValue :=
| Text (s : jsstring)
| PrototypeMember (member : jsstring).

(** [translations[finnishText] || finnishText] *)
Definition translateFinnishToEnglishBasic (finnishText : jsstring) : FallbackValue :=
  match getMember translations finnishText with
  | Own (c :: r) => Text (c :: r)
  | Own [] | Undefined => Text finnishText
  | Inherited member => PrototypeMember member
  end.

Arguments translations : simpl never.
Arguments translateFinnishToEnglishBasic : simpl never.

(** The [TypeError] raised by [basicTranslation.substring(0, 50)] when the
    fallback returned something that is not a string. *)
Definition substringTypeError : Exn := "basicTranslation.substring is not a function".

Definition translateToEnglish (text : jsstring) : Async jsstring :=
  match text with
  | [] => ret text
  | _ =>
      if negb (finnishChars_test text) && englishPattern_test text then ret text
      else
        tryCatch
          (response ← await (PostTranslate text) (fun h => deepl env h text);
           let translated := orElse response text in
           ret translated)
          (fun _ =>
             let basicTranslation := translateFinnishToEnglishBasic text in
             (* [basicTranslation.substring(0, 50)] in the log line *)
             match basicTranslation with
             | Text translation => ret translation
             | PrototypeMember _ => throw substringTypeError
             end)
  end.

(** ** Source adapter: registry variant *)

Definition resultsPerPage : nat := 100.

(** The registration date the filter and the normalizer read. *)
Definition nestedRegistrationDate (company : RawCompany) : option jsstring :=
  match businessId company with
  | IdNested b => idRegistrationDate b
  | _ => None
  end.

(** [company.mainBusinessLine?.type] *)
Definition businessLineType (company : RawCompany) : option jsstring :=
  mainBusinessLine company ≫= type.

(** [regDate ? new Date(regDate).getFullYear() : 0], [None] for [NaN]. *)
Definition registrationYear (company : RawCompany) : option Z :=
  let regDate := orOpt (nestedRegistrationDate company) (registrationDate company) in
  match regDate with
  | Some (c :: r) => getFullYear env (c :: r)
  | _ => Some 0%Z
  end.

(** The callback of [pageData.filter]: [year >= 2020 && hasIndustryCode]. *)
Definition isValidCompany (company : RawCompany) : bool :=
  let hasIndustryCode := businessLineType company in
  let year := registrationYear company in
  match year with
  | Some y => (2020 <=? y)%Z && truthy hasIndustryCode
  | None => false
  end.

Definition pageDataOf (data : ListingData) : list RawCompany :=
  match data with
  | ListingArray records => records
  | ListingObject (Some results) _ => results
  | ListingObject None (Some companies) => companies
  | ListingObject None None => []
  end.

(** The [while (allFetchedCompanies.length < maxResults)] loop. *)
Equations? fetchPages (maxResults page : nat) (allFetchedCompanies : list RawCompany)
  : Async (list RawCompany) by wf (51 - page) lt :=
  fetchPages maxResults page allFetchedCompanies :=
    if decide (length allFetchedCompanies < maxResults) then
      response ← await (GetCompanies page) (fun _ => prh env page);
      let pageData := pageDataOf response in
      if decide (length pageData = 0) then ret allFetchedCompanies
      else
        let validCompanies := List.filter isValidCompany pageData in
        let allFetchedCompanies' := allFetchedCompanies ++ validCompanies in
        if decide (maxResults ≤ length allFetchedCompanies') then ret allFetchedCompanies'
        else if decide (length pageData < resultsPerPage) then ret allFetchedCompanies'
        else
          let page' := page + 1 in
          if decide (50 < page') then ret allFetchedCompanies'
          else emit (Sleep 200%Z) ;; fetchPages maxResults page' allFetchedCompanies'
    else ret allFetchedCompanies.
Proof. lia. Qed.

Definition extractBusinessId (company : RawCompany) : BusinessIdValue :=
  match businessId company with
  | IdNested b => if truthy (value b) then IdString (orElse (value b) []) else IdObject b
  | IdFlat s => IdString s
  | IdAbsent => IdString []
  end.

Definition extractName (company : RawCompany) : jsstring :=
  match names company with
  | Some (first :: rest) =>
      let activeName :=
        List.find (fun n => isStr (nameType n) (js "1") && negb (truthy (endDate n)))
                  (first :: rest) in
      orElse (orOpt (activeName ≫= name) (name first)) (js "Unknown")
  | _ => js "Unknown"
  end.

Definition extractDescription (company : RawCompany) : jsstring :=
  match mainBusinessLine company ≫= descriptions with
  | Some ds =>
      let englishDesc := List.find (fun d => isStr (languageCode d) (js "3")) ds in
      orElse (orOpt (englishDesc ≫= description) (ds !! 0%nat ≫= description)) []
  | None => []
  end.

Definition cityInLanguage (l : jsstring) (address : Address) : option jsstring :=
  (postOffices address ≫= List.find (fun p => isStr (postLanguageCode p) l)) ≫= city.

(** The address string built from the chosen address object. *)
Definition composeAddress (visitingAddress : Address) : jsstring :=
  let street' := orElse (street visitingAddress) [] in
  let buildingNumber' := orElse (buildingNumber visitingAddress) [] in
  let entrance' := if truthy (entrance visitingAddress)
                   then js " " ++ orElse (entrance visitingAddress) [] else [] in
  let apartmentNumber' := if truthy (apartmentNumber visitingAddress)
                          then js " " ++ orElse (apartmentNumber visitingAddress) [] else [] in
  let postCode' := orElse (postCode visitingAddress) [] in
  let city' :=
    orElse (orOpt (orOpt (cityInLanguage (js "3") visitingAddress)
                         (cityInLanguage (js "1") visitingAddress))
                  ((postOffices visitingAddress ≫= (fun ps => ps !! 0%nat)) ≫= city)) [] in
  let addressParts :=
    join [] (List.filter (fun part => truthy (Some part))
                         [street'; buildingNumber'; entrance'; apartmentNumber']) in
  stripTrailingComma
    (stripLeadingComma
       (trim (addressParts ++ js ", " ++ postCode' ++ js " " ++ city'))).

Definition extractAddress (company : RawCompany) : jsstring :=
  match addresses company with
  | Some (first :: rest) =>
      let visitingAddress :=
        default first (List.find (fun a => bool_decide (addressType a = Some 1%Z))
                                 (first :: rest)) in
      composeAddress visitingAddress
  | _ => []
  end.

(** [a || b || null] *)
Definition extractRegistrationDate (company : RawCompany) : option jsstring :=
  let r := orOpt (nestedRegistrationDate company) (registrationDate company) in
  if truthy r then r else None.

(** The industry label: the name found under the industry code, translated
    when the entry is marked Finnish; the code itself when nothing truthy
    is found under it. *)
Definition resolveCategoryName (classifications : ClassificationTable)
    (industryCode : option jsstring) : Async (option jsstring) :=
  match industryCode with
  | Some (c :: r) =>
      let classification := lookupEntry classifications (c :: r) in
      if truthyValue classification then
        if truthy (valueName classification) && valueIsFinnish classification
        then
          translated ← translateToEnglish (orElse (valueName classification) []);
          ret (Some translated)
        else ret (valueName classification)
      else ret (Some (js "Industry Code: " ++ c :: r))
  | _ => ret (Some [])
  end.

(** One iteration of the [for] loop that builds [processedCompanies]. *)
Definition processCompany (classifications : ClassificationTable)
    (company : RawCompany) : Async Company :=
  let businessId := extractBusinessId company in
  let companyName := extractName company in
  let description := extractDescription company in
  let address := extractAddress company in
  let registrationDate := extractRegistrationDate company in
  let industryCode := businessLineType company in
  categoryName ← resolveCategoryName classifications industryCode;
  ret {| companyName := companyName;
         companyBusinessId := businessId;
         industryCode := orElse industryCode [];
         details := {| detailsName := companyName;
                       detailsDescription := description;
                       detailsAddress := address;
                       detailsRegistrationDate := registrationDate;
                       categoryName := categoryName |} |}.

Definition fetchCompaniesFromAPI (maxResults : nat) : Async (list Company) :=
  tryCatch
    (classifications ← fetchIndustryClassifications;
     allFetchedCompanies ← fetchPages maxResults 1 [];
     if decide (length allFetchedCompanies = 0) then ret []
     else
       let companies := slice allFetchedCompanies 0 maxResults in
       forPush (processCompany classifications) companies)
    (fun error => throw error).

(** ** Text normalizer *)

(** String conversion of a stored business id, as in a template literal or
    a property key. *)
Definition businessIdToString (b : BusinessIdValue) : jsstring :=
  match b with
  | IdString s => s
  | IdObject _ => js "[object Object]"
  end.

Definition createCompanyText (company : Company) : jsstring :=
  let name := orElse (Some (detailsName (details company))) (companyName company) in
  let description := detailsDescription (details company) in
  let address := detailsAddress (details company) in
  let registrationDate := orElse (detailsRegistrationDate (details company)) [] in
  let categoryName := orElse (categoryName (details company)) [] in
  js "Company: " ++ name ++ js ". Business ID: " ++ businessIdToString (companyBusinessId company)
  ++ js ". Industry: " ++ categoryName ++ js ". Description: " ++ description
  ++ js ". Address: " ++ address ++ js ". Registration Date: "
  ++ orElse (Some registrationDate) (js "N/A") ++ js ".".

Definition joinedOrEmpty (l : option (list jsstring)) : jsstring :=
  orElse (join (js ", ") <$> l) [].

Definition createInvestorText (investor : RawInvestor) : jsstring :=
  let name := orElse (investorName investor) [] in
  let role := orElse (role investor) [] in
  let firm := orElse (firm investor) [] in
  let location := orElse (location investor) [] in
  let preferredIndustries := joinedOrEmpty (preferred_industries investor) in
  let businessModels := joinedOrEmpty (business_models investor) in
  let preferredRounds := joinedOrEmpty (preferred_rounds investor) in
  let geoFocus := joinedOrEmpty (geo_focus investor) in
  let checkSize := orElse (check_size_range investor) [] in
  let thesis := orElse (investment_thesis investor) [] in
  let avoidIndustries := joinedOrEmpty (avoid_industries investor) in
  js "Investor: " ++ name ++ js ". Role: " ++ role
  ++ (if truthy (Some firm) then js " at " ++ firm else [])
  ++ js ". Location: " ++ location ++ js ". Investment Thesis: " ++ thesis
  ++ js ". Preferred Industries: " ++ preferredIndustries
  ++ js ". Business Models: " ++ businessModels
  ++ js ". Preferred Rounds: " ++ preferredRounds
  ++ js ". Geographic Focus: " ++ geoFocus
  ++ js ". Check Size: " ++ checkSize
  ++ js ". Avoid Industries: " ++ avoidIndustries ++ js ".".

Definition processInvestorData (investor : RawInvestor) : Investor :=
  {| investor_id := investorId investor;
     processedName := investorName investor;
     investorDetails := investor |}.

(** ** Batch vectorizer *)

Definition batchSize : nat := 100.

(** The [for (let i = 0; i < texts.length; i += batchSize)] loop. *)
Equations? vectorizeBatches (texts : list jsstring) (i : nat) (allVectors : list Vec)
  : Async (list Vec) by wf (length texts - i) lt :=
  vectorizeBatches texts i allVectors :=
    if decide (i < length texts) then
      let batch := slice texts i (i + batchSize) in
      allVectors' ←
        tryCatch
          (response ← await (PostEmbeddings batch) (fun h => voyage env h batch);
           let vectors := map embedding response in
           let allVectors' := allVectors ++ vectors in
           (if decide (i + batchSize < length texts) then emit (Sleep 60000%Z) else ret tt) ;;
           ret allVectors')
          (fun error => throw error);
      vectorizeBatches texts (i + batchSize) allVectors'
    else ret allVectors.
Proof. unfold batchSize. lia. Qed.

Definition vectorizeWithVoyage (texts : list jsstring) : Async (list Vec) :=
  vectorizeBatches texts 0 [].

(** ** Upsert store writer *)

(** [parseInt(process.env.BATCH_SIZE) || 50]: any integer but zero is
    taken as it is, a negative one included. *)
Definition BATCH_SIZE : Z :=
  match BATCH_SIZE_env env with
  | Some n => if (n =? 0)%Z then 50%Z else n
  | None => 50%Z
  end.

(** [rows.slice(start, stop)]: a negative index counts from the end. *)
Definition sliceZ {A} (l : list A) (start stop : Z) : list A :=
  let len := Z.of_nat (length l) in
  let from := if (start <? 0)%Z then Z.max (len + start) 0 else Z.min start len in
  let to := if (stop <? 0)%Z then Z.max (len + stop) 0 else Z.min stop len in
  take (Z.to_nat (to - from)) (drop (Z.to_nat from) l).

(** Truthiness of what the id map gave. *)
Definition truthyId (id : Member Z) : bool :=
  match id with
  | Own z => negb (z =? 0)%Z
  | Inherited _ => true
  | Undefined => false
  end.

(** The object filled by [records.forEach(record => { map[key] = record.id })],
    starting from [{}]. *)
Definition idsByNaturalKey (records : list IdRecord) : gmap jsstring Z :=
  foldl (fun m record => setPrimitive m (natural_key record) (rowId record)) ∅ records.

Section Store.

(** The company and the investor script carry the same writer, over
    different tables, rows and key fields. *)
Context {Entity : Type}.
Variable entityTable embeddingsTable : string.
Variable toRow : Entity -> EntityRow.
Variable naturalKey : Entity -> jsstring.

Definition embeddingData (ids : gmap jsstring Z) (entities : list Entity)
    (vectors : list Vec) : list EmbeddingRow :=
  List.filter (fun item => truthyId (entity_id item))
    (imap (fun index entity => {| entity_id := getMember ids (naturalKey entity);
                                  embeddings := vectors !! index |})
          entities).

(** The [for (let i = 0; i < embeddingData.length; i += BATCH_SIZE)] loop,
    followed for at most [fuel] iterations. *)
Fixpoint insertBatches (fuel : nat) (data : list EmbeddingRow) (i : Z) : Partial unit :=
  if decide (i < Z.of_nat (length data))%Z then
    match fuel with
    | O => fun w => (None, w)
    | S fuel' =>
        let batch := sliceZ data i (i + BATCH_SIZE) in
        andThen (query (UpsertEmbeddings embeddingsTable batch)
                       (fun h => upsertEmbeddings env h embeddingsTable batch))
                (fun embeddingError =>
                   match embeddingError with
                   | Some e => finished (throw e)
                   | None => insertBatches fuel' data (i + BATCH_SIZE)
                   end)
    end
  else finished (ret tt).

Definition storeInSupabase (fuel : nat) (entities : list Entity) (vectors : list Vec)
  : Partial unit :=
  tryCatchPartial
    (let entityData := map toRow entities in
     andThen (query (UpsertEntities entityTable entityData)
                    (fun h => upsertEntities env h entityTable entityData))
       (fun entityError =>
          match entityError with
          | Some e => finished (throw e)
          | None =>
              let keys := map naturalKey entities in
              andThen (query (SelectIds entityTable keys)
                             (fun h => selectIds env h entityTable keys))
                (fun selected =>
                   match selected with
                   | SelectError e => finished (throw e)
                   | SelectData records =>
                       let ids := idsByNaturalKey records in
                       insertBatches fuel (embeddingData ids entities vectors) 0
                   end)
          end))
    (fun error => throw error).

End Store.

Definition storeCompanies (fuel : nat) : list Company -> list Vec -> Partial unit :=
  storeInSupabase "company" "company_embeddings"
    (fun company => CompanyRow (companyBusinessId company) (companyName company)
                               (details company))
    (fun company => businessIdToString (companyBusinessId company))
    fuel.

Definition storeInvestors (fuel : nat) : list Investor -> list Vec -> Partial unit :=
  storeInSupabase "investor" "investor_embeddings"
    (fun investor => InvestorRow (investor_id investor) (investorDetails investor))
    investor_id
    fuel.

(** ** The two pipelines *)

Definition missingEnvironment : bool :=
  negb (truthy (SUPABASE_URL env)) || negb (truthy (SUPABASE_ANON_KEY env))
  || negb (truthy (VOYAGE_API_KEY env)).

(** The [try] block of the company script's [main]. *)
Definition companyPipeline (fuel : nat) : Partial unit :=
  if missingEnvironment
  then finished
         (throw "Missing required environment variables. Please check your .env file.")
  else
    andThen (fetchCompaniesFromAPI 500)
      (fun companies =>
         if decide (length companies = 0) then finished (ret tt)
         else
           let companyTexts := map createCompanyText companies in
           andThen (vectorizeWithVoyage companyTexts)
             (fun vectors => storeCompanies fuel companies vectors)).

Definition loadInvestorsFromJSON : Async (list RawInvestor) :=
  match investorsJson env with
  | Resolved investors => ret investors
  | Rejected e => throw e
  end.

(** The [try] block of the investor script's [main]. *)
Definition investorPipeline (fuel : nat) : Partial unit :=
  if missingEnvironment
  then finished
         (throw "Missing required environment variables. Please check your .env file.")
  else
    andThen loadInvestorsFromJSON
      (fun rawInvestors =>
         if decide (length rawInvestors = 0) then finished (ret tt)
         else
           let investors := map processInvestorData rawInvestors in
           let investorTexts := map createInvestorText rawInvestors in
           andThen (vectorizeWithVoyage investorTexts)
             (fun vectors => storeInvestors fuel investors vectors)).

(** [main]: the pipeline under [catch (error) { process.exit(1) }]; a run
    that returns from [main] ends the process with exit code 0, and a run
    that is still in the store loop has no exit code yet. *)
Definition runMain (pipeline : Partial unit) (w : World) : option nat * World :=
  match pipeline w with
  | (Some (Ok _), w') => (Some 0, w')
  | (Some (Throw _), w') => (Some 1, w')
  | (None, w') => (None, w')
  end.

(** The two [main] functions, their store loop followed for at most [fuel]
    iterations. *)
Definition companyMain (fuel : nat) : World -> option nat * World :=
  runMain (companyPipeline fuel).
Definition investorMain (fuel : nat) : World -> option nat * World :=
  runMain (investorPipeline fuel).

(** The state of a freshly started process. *)
Definition start : World := {| industryClassifications := None; trace := [] |}.

End Model.

(** ** Vocabulary of the properties *)

Section Vocabulary.

Context {Vec : Type}.

(** The inputs of the embedding requests of a trace, in order. *)
Definition embeddingRequests (t : list (@Event Vec)) : list (list jsstring) :=
  omap (fun ev => match ev with PostEmbeddings input => Some input | _ => None end) t.

(** The pages asked of the listing service, in order. *)
Definition requestedPages (t : list (@Event Vec)) : list nat :=
  omap (fun ev => match ev with GetCompanies page => Some page | _ => None end) t.

(** The rows of the embedding upserts of a trace, in order. *)
Definition embeddingRowsWritten (t : list (@Event Vec)) : list (@EmbeddingRow Vec) :=
  concat (omap (fun ev => match ev with UpsertEmbeddings _ rows => Some rows | _ => None end) t).

(** Requests to the embedding service or to the store. *)
Definition isVectorizeOrStore (ev : @Event Vec) : bool :=
  match ev with
  | PostEmbeddings _ | UpsertEntities _ _ | SelectIds _ _ | UpsertEmbeddings _ _ => true
  | _ => false
  end.

Definition isStoreEvent (ev : @Event Vec) : bool :=
  match ev with
  | UpsertEntities _ _ | SelectIds _ _ | UpsertEmbeddings _ _ => true
  | _ => false
  end.

Definition isTranslation (ev : @Event Vec) : Prop := exists t, ev = PostTranslate t.

(** What the vectorizer adds to a trace: embedding requests and waits. *)
Definition isVectorizerEvent (ev : @Event Vec) : Prop :=
  (exists input, ev = PostEmbeddings input) ∨ ev = Sleep 60000.

(** The number of requests for [n] texts in batches of 100. *)
Definition batchCount (n : nat) : nat := (n + 99) / 100.

(** The [j]-th consecutive chunk of 100 texts. *)
Definition chunk (texts : list jsstring) (j : nat) : list jsstring :=
  take 100 (drop (100 * j) texts).

(** *** Positional pairing of entities and vectors *)

(** The embedding row of an entity paired with its vector: none when what
    the id map gives for the entity's natural key is falsy. *)
Definition pairedRow {Entity : Type} (ids : gmap jsstring Z) (naturalKey : Entity -> jsstring)
    (pair : Entity * Vec) : option (@EmbeddingRow Vec) :=
  let id := getMember ids (naturalKey pair.1) in
  if truthyId id then Some {| entity_id := id; embeddings := Some pair.2 |} else None.

(** Entity [i] with vector [i], for the entities that resolve, in order. *)
Definition alignedRows {Entity : Type} (ids : gmap jsstring Z) (naturalKey : Entity -> jsstring)
    (entities : list Entity) (vectors : list Vec) : list (@EmbeddingRow Vec) :=
  omap (pairedRow ids naturalKey) (zip entities vectors).

(** *** The listing as the registry adapter sees it *)

Variable env : @Env Vec.

(** The records of a page; none when the request for it is rejected. *)
Definition pageRecords (page : nat) : list RawCompany :=
  match prh env page with
  | Resolved data => pageDataOf data
  | Rejected _ => []
  end.

(** The records of pages [1..n] that pass the filter, in order. *)
Definition accumulated (n : nat) : list RawCompany :=
  flat_map (fun page => List.filter (isValidCompany env) (pageRecords page)) (seq 1 n).

(** A run from [w] aborts on a rejected embedding request: whenever its
    trace shows an embedding request that the collaborator rejected, the
    run threw that error, the request is the last thing it did, and it made
    no store request at all. *)
Definition abortsOnRejection {A} (run : option (Result A) * @World Vec) (w : @World Vec)
  : Prop :=
  forall before batch after e,
    trace run.2 = trace w ++ before ++ PostEmbeddings batch :: after ->
    voyage env (trace w ++ before) batch = Rejected e ->
    run.1 = Some (Throw e) ∧ after = []
    ∧ Forall (fun ev => isStoreEvent ev = false) (before ++ PostEmbeddings batch :: after).

(** The pagination ends with page [p]: its request is rejected, it is a
    short page, the target is reached, or it is the fiftieth page. *)
Definition stopsAt (maxResults p : nat) : Prop :=
  (exists e, prh env p = Rejected e)
  ∨ length (pageRecords p) < 100
  ∨ maxResults ≤ length (accumulated p)
  ∨ p = 50.

(** [company] carries the fields the normalizer extracts from [raw]. *)
Definition normalizes (raw : RawCompany) (company : Company) : Prop :=
  companyBusinessId company = extractBusinessId raw
  ∧ companyName company = extractName raw
  ∧ industryCode company = orElse (businessLineType raw) []
  ∧ detailsName (details company) = extractName raw
  ∧ detailsDescription (details company) = extractDescription raw
  ∧ detailsAddress (details company) = extractAddress raw
  ∧ detailsRegistrationDate (details company) = extractRegistrationDate raw.

End Vocabulary.

(** The Finnish diacritics the translator looks for. *)
Definition finnishDiacritics : jsstring := js "äöåÄÖÅ".

Definition noDiacritics (text : jsstring) : Prop :=
  Forall (fun c => c ∉ finnishDiacritics) text.

(** Only ASCII letters, white space, comma, period and hyphen. *)
Definition plainAscii (text : jsstring) : Prop :=
  Forall (fun c => (65 ≤ c ∧ c ≤ 90)%N ∨ (97 ≤ c ∧ c ≤ 122)%N
                   ∨ isWhiteSpace c = true
                   ∨ c = comma ∨ c = period ∨ c = hyphen) text.

(** The translator returns the text at once, without a request. *)
Definition isPassedThrough (text : jsstring) : bool :=
  match text with
  | [] => true
  | _ => negb (finnishChars_test text) && englishPattern_test text
  end.

(** The keys of the fallback dictionary. *)
Definition dictionaryKeys : list jsstring := map fst (map_to_list translations).

(** ** Sample data *)

(** The visiting address of the specification's example. *)
Definition mannerheimintie : Address := {|
  addressType := Some 1%Z;
  street := Some (js "Mannerheimintie");
  buildingNumber := Some (js "10");
  entrance := None;
  apartmentNumber := None;
  postCode := Some (js "00100");
  postOffices := Some [ {| postLanguageCode := Some (js "1"); city := Some (js "Helsinki") |} ]
|}.

(** The same address in a record that carries no postal code. *)
Definition mannerheimintieWithoutPostCode : Address := {|
  addressType := Some 1%Z;
  street := Some (js "Mannerheimintie");
  buildingNumber := Some (js "10");
  entrance := None;
  apartmentNumber := None;
  postCode := None;
  postOffices := Some [ {| postLanguageCode := Some (js "1"); city := Some (js "Helsinki") |} ]
|}.

Definition companyAt (address : Address) : RawCompany := {|
  businessId := IdNested {| value := Some (js "1234567-8");
                            idRegistrationDate := Some (js "2021-03-01") |};
  registrationDate := None;
  names := Some [ {| nameType := Some (js "1"); name := Some (js "Esimerkki Oy"); endDate := None |} ];
  mainBusinessLine := Some {| type := Some (js "62010"); descriptions := None |};
  addresses := Some [address]
|}.

(** ** Sample environments *)

(** Every collaborator is unreachable. *)
Definition servicesDown : @Env (list Z) := {|
  SUPABASE_URL := Some (js "https://project.supabase.co");
  SUPABASE_ANON_KEY := Some (js "anon");
  VOYAGE_API_KEY := Some (js "voyage");
  DEEPL_API_KEY := Some (js "deepl");
  BATCH_SIZE_env := None;
  getFullYear := fun _ => None;
  statisticsFi := fun _ => Rejected "ECONNREFUSED";
  prh := fun _ => Rejected "ECONNREFUSED";
  deepl := fun _ _ => Rejected "Request failed with status code 429";
  voyage := fun _ _ => Rejected "ECONNREFUSED";
  upsertEntities := fun _ _ _ => Some "ECONNREFUSED";
  selectIds := fun _ _ _ => SelectError "ECONNREFUSED";
  upsertEmbeddings := fun _ _ _ => Some "ECONNREFUSED";
  investorsJson := Rejected "ENOENT"
|}.

(** A second registry record, in the flat shape. *)
Definition rakennusOy : RawCompany := {|
  businessId := IdFlat (js "7654321-0");
  registrationDate := Some (js "2022-06-15");
  names := Some [ {| nameType := Some (js "1"); name := Some (js "Rakennus Oy"); endDate := None |} ];
  mainBusinessLine :=
    Some {| type := Some (js "43210");
            descriptions := Some [ {| languageCode := Some (js "3");
                                      description := Some (js "Electrical installation") |} ] |};
  addresses := None
|}.

(** A record registered in 2023 that carries no industry code. *)
Definition withoutIndustryCode : RawCompany := {|
  businessId := IdFlat (js "1111111-1");
  registrationDate := Some (js "2023-01-10");
  names := None;
  mainBusinessLine := None;
  addresses := None
|}.

Definition sampleClassifications : ClassificationData :=
  ClassificationArray [
    Some {| code := Some (js "43210");
            classificationItemNames :=
              Some [ {| lang := Some (js "fi"); itemName := Some (js "Sähköasennus") |} ];
            explanatoryNotes := None |};
    Some {| code := Some (js "62010");
            classificationItemNames :=
              Some [ {| lang := Some (js "en"); itemName := Some (js "Computer programming") |} ];
            explanatoryNotes := None |}
  ].

Definition digitValue (c : N) : option Z :=
  if ((48 <=? c) && (c <=? 57))%N then Some (Z.of_N c - 48)%Z else None.

(** The year of a date written [YYYY-MM-DD]. *)
Definition yearOfIsoDate (s : jsstring) : option Z :=
  match s with
  | a :: b :: c :: d :: _ =>
      a' ← digitValue a; b' ← digitValue b; c' ← digitValue c; d' ← digitValue d;
      Some (1000 * a' + 100 * b' + 10 * c' + d')%Z
  | _ => None
  end.

(** An environment in which the listing has the given first page and no
    other record, the embedding service answers as given, and the store
    accepts every write and reads back every key but [unmapped]. *)
Definition sampleEnv (firstPage : list RawCompany)
    (embed : list jsstring -> Response (list (@EmbeddingItem (list Z))))
    (unmapped : jsstring) : @Env (list Z) := {|
  SUPABASE_URL := Some (js "https://project.supabase.co");
  SUPABASE_ANON_KEY := Some (js "anon");
  VOYAGE_API_KEY := Some (js "voyage");
  DEEPL_API_KEY := Some (js "deepl");
  BATCH_SIZE_env := None;
  getFullYear := yearOfIsoDate;
  statisticsFi := fun _ => Resolved sampleClassifications;
  prh := fun page => Resolved (ListingArray (if decide (page = 1) then firstPage else []));
  deepl := fun _ _ => Resolved (Some (js "Electrical installation"));
  voyage := fun _ => embed;
  upsertEntities := fun _ _ _ => None;
  selectIds := fun _ _ keys =>
    SelectData (imap (fun i key => {| rowId := Z.of_nat (S i); natural_key := key |})
                     (List.filter (fun key => negb (bool_decide (key = unmapped))) keys));
  upsertEmbeddings := fun _ _ _ => None;
  investorsJson := Resolved []
|}.

(** A stand-in embedding: the length of the text. *)
Definition lengthEmbedding (text : jsstring) : @EmbeddingItem (list Z) :=
  {| embedding := [Z.of_nat (length text)] |}.

(** Three registry records, one of them without an industry code; every
    collaborator answers; the store reads back no row for [7654321-0]. *)
Definition healthy : @Env (list Z) :=
  sampleEnv [companyAt mannerheimintie; withoutIndustryCode; rakennusOy]
            (fun batch => Resolved (map lengthEmbedding batch))
            (js "7654321-0").

(** The same, with the embedding service rejecting every request. *)
Definition embeddingDown : @Env (list Z) :=
  sampleEnv [companyAt mannerheimintie; withoutIndustryCode; rakennusOy]
            (fun _ => Rejected "Request failed with status code 429")
            (js "7654321-0").

(** A registry whose first page is empty, and an empty roster. *)
Definition emptyRegistry : @Env (list Z) :=
  sampleEnv [] (fun batch => Resolved (map lengthEmbedding batch)) (js "").

Definition sampleCompanies : list Company :=
  Eval vm_compute in
    match (fetchCompaniesFromAPI healthy 500 start).1 with
    | Ok companies => companies
    | Throw _ => []
    end.

Definition sampleFetched : @World (list Z) :=
  Eval vm_compute in (fetchCompaniesFromAPI healthy 500 start).2.

Definition sampleVectors : list (list Z) := [[111%Z]; [222%Z]].

Definition sampleTexts : list jsstring :=
  Eval vm_compute in map createCompanyText sampleCompanies.

Definition emptyFetched : @World (list Z) :=
  Eval vm_compute in (fetchCompaniesFromAPI emptyRegistry 500 start).2.

(** An investor whose id is the text ["constructor"]. *)
Definition investorNamedConstructor : RawInvestor := {|
  investorId := js "constructor";
  investorName := Some (js "Example Capital");
  role := Some (js "Partner");
  firm := None;
  location := Some (js "Turku");
  preferred_industries := Some [js "Software"];
  business_models := None;
  preferred_rounds := None;
  geo_focus := None;
  check_size_range := None;
  investment_thesis := None;
  avoid_industries := None
|}.

(** A store that accepts every write and reads back no row for the key
    ["constructor"]. *)
Definition readBackWithoutConstructor : @Env (list Z) :=
  sampleEnv [] (fun batch => Resolved (map lengthEmbedding batch)) (js "constructor").

(** ** Vocabulary of the further properties *)

Section MoreVocabulary.

Context {Vec : Type}.

(** The consecutive chunks of [size] items of a list. *)
Definition chunksOf {A : Type} (size : nat) (l : list A) : list (list A) :=
  map (fun j => take size (drop (size * j) l)) (seq 0 ((length l + size - 1) / size)).

(** What a vectorize call without a failure adds to the trace: one request
    per chunk, each but the last followed by the wait of sixty seconds. *)
Definition vectorizerTrace (texts : list jsstring) : list (@Event Vec) :=
  flat_map (fun j => PostEmbeddings (chunk texts j)
                     :: (if decide (S j < batchCount (length texts))
                         then [Sleep 60000%Z] else []))
           (seq 0 (batchCount (length texts))).

End MoreVocabulary.

Section RegistryTrace.

Context {Vec : Type}.


(** The translation requests of a trace, in order. *)
Definition translationRequests (t : list (@Event Vec)) : list jsstring :=
  omap (fun ev => match ev with PostTranslate text => Some text | _ => None end) t.

End RegistryTrace.

(** The cache entry the loader builds from an item. *)
Definition classificationEntry (item : ClassificationItem) : Classification :=
  {| className := classificationName item;
     classDescription := classificationDescription item;
     isFinnish := classificationIsFinnish item |}.

(** Entering one item in the table: assigned under its code, when that is
    non-empty. *)
Definition loadItem (table : ClassificationTable) (item : ClassificationItem)
  : ClassificationTable :=
  match code item with
  | Some (c :: r) => assignEntry table (c :: r) (classificationEntry item)
  | _ => table
  end.

(** The table the loader builds from well-formed items. *)
Definition loadedTable (items : list ClassificationItem) : ClassificationTable :=
  foldl loadItem ∅ items.

(** *** Address parts *)

(** A text begins, respectively ends, with a character that is not white
    space. *)
Definition startsWithInk (s : jsstring) : Prop :=
  exists c r, s = c :: r ∧ isWhiteSpace c = false.

Definition endsWithInk (s : jsstring) : Prop :=
  exists r c, s = r ++ [c] ∧ isWhiteSpace c = false.

(** A tidy part: no comma, and no white space at either end. *)
Definition tidy (s : jsstring) : Prop :=
  (comma ∉ s) ∧ startsWithInk s ∧ endsWithInk s.

(** A part that is absent (or empty), or tidy. *)
Definition tidyIfPresent (part : option jsstring) : Prop :=
  match part with
  | Some (c :: r) => tidy (c :: r)
  | _ => True
  end.

(** The city the normalizer picks: the post office in language 3, else in
    language 1, else the first one. *)
Definition addressCity (address : Address) : jsstring :=
  orElse (orOpt (orOpt (cityInLanguage (js "3") address)
                       (cityInLanguage (js "1") address))
                ((postOffices address ≫= (fun ps => ps !! 0%nat)) ≫= city)) [].

(** Street, building number, entrance and apartment number as the
    normalizer sets them side by side. *)
Definition streetLine (address : Address) : jsstring :=
  orElse (street address) [] ++ orElse (buildingNumber address) []
  ++ (if truthy (entrance address) then js " " ++ orElse (entrance address) [] else [])
  ++ (if truthy (apartmentNumber address)
      then js " " ++ orElse (apartmentNumber address) [] else []).

(** *** Labels that are sent for translation *)


(** The label of a company when nothing was loaded: the code itself,
    unless the code names a member of [Object.prototype]. *)
Definition labelWithoutTable (code : jsstring) : option jsstring :=
  if isInherited code then memberName code
  else Some (js "Industry Code: " ++ code).

(** *** Store requests *)

Section StoreVocabulary.

Context {Vec : Type}.

(** What the store loop has asked after [fuel] iterations when the batch
    size is negative and nothing is refused: the rows but the last
    [-size] of them first, and empty batches from then on. *)
Definition endlessUpserts (table : string) (size : Z) (rows : list (@EmbeddingRow Vec))
    (fuel : nat) : list (@Event Vec) :=
  match fuel with
  | O => []
  | S fuel' =>
      UpsertEmbeddings table (take (length rows - Z.to_nat (- size)) rows)
      :: replicate fuel' (UpsertEmbeddings table [])
  end.

End StoreVocabulary.

(** A boolean check of tidiness, for concrete parts. *)
Definition tidyCheck (s : jsstring) : bool :=
  negb (existsb (fun c => (c =? comma)%N) s)
  && match s with c :: _ => negb (isWhiteSpace c) | [] => false end
  && match rev s with c :: _ => negb (isWhiteSpace c) | [] => false end.

(** ** Further sample environments *)

Definition withClassificationService (answer : Response ClassificationData)
    (e : @Env (list Z)) : @Env (list Z) := {|
  SUPABASE_URL := SUPABASE_URL e;
  SUPABASE_ANON_KEY := SUPABASE_ANON_KEY e;
  VOYAGE_API_KEY := VOYAGE_API_KEY e;
  DEEPL_API_KEY := DEEPL_API_KEY e;
  BATCH_SIZE_env := BATCH_SIZE_env e;
  getFullYear := getFullYear e;
  statisticsFi := fun _ => answer;
  prh := prh e;
  deepl := deepl e;
  voyage := voyage e;
  upsertEntities := upsertEntities e;
  selectIds := selectIds e;
  upsertEmbeddings := upsertEmbeddings e;
  investorsJson := investorsJson e
|}.

(** The healthy environment without the embedding service's key. *)
Definition unconfigured : @Env (list Z) := {|
  SUPABASE_URL := SUPABASE_URL healthy;
  SUPABASE_ANON_KEY := SUPABASE_ANON_KEY healthy;
  VOYAGE_API_KEY := None;
  DEEPL_API_KEY := DEEPL_API_KEY healthy;
  BATCH_SIZE_env := BATCH_SIZE_env healthy;
  getFullYear := getFullYear healthy;
  statisticsFi := statisticsFi healthy;
  prh := prh healthy;
  deepl := deepl healthy;
  voyage := voyage healthy;
  upsertEntities := upsertEntities healthy;
  selectIds := selectIds healthy;
  upsertEmbeddings := upsertEmbeddings healthy;
  investorsJson := investorsJson healthy
|}.

(** The healthy environment with the classification service unreachable. *)
Definition classificationDown : @Env (list Z) :=
  withClassificationService (Rejected "ETIMEDOUT") healthy.

Definition electricalInstallation : ClassificationItem :=
  {| code := Some (js "43210");
     classificationItemNames :=
       Some [ {| lang := Some (js "fi"); itemName := Some (js "Sähköasennus") |} ];
     explanatoryNotes := None |}.

Definition computerProgramming : ClassificationItem :=
  {| code := Some (js "62010");
     classificationItemNames :=
       Some [ {| lang := Some (js "en"); itemName := Some (js "Computer programming") |} ];
     explanatoryNotes := None |}.

(** The healthy environment with a [null] item in the classification
    answer. *)
Definition tableWithNull : @Env (list Z) :=
  withClassificationService
    (Resolved (ClassificationArray [Some electricalInstallation; None;
                                    Some computerProgramming]))
    healthy.

Definition classificationDownFetched : @World (list Z) :=
  Eval vm_compute in (fetchCompaniesFromAPI classificationDown 500 start).2.

Definition classificationDownCompanies : list Company :=
  Eval vm_compute in
    match (fetchCompaniesFromAPI classificationDown 500 start).1 with
    | Ok companies => companies
    | Throw _ => []
    end.

(** An environment with the given value of [parseInt(process.env.BATCH_SIZE)]. *)
Definition withBatchSize (size : option Z) (e : @Env (list Z)) : @Env (list Z) := {|
  SUPABASE_URL := SUPABASE_URL e;
  SUPABASE_ANON_KEY := SUPABASE_ANON_KEY e;
  VOYAGE_API_KEY := VOYAGE_API_KEY e;
  DEEPL_API_KEY := DEEPL_API_KEY e;
  BATCH_SIZE_env := size;
  getFullYear := getFullYear e;
  statisticsFi := statisticsFi e;
  prh := prh e;
  deepl := deepl e;
  voyage := voyage e;
  upsertEntities := upsertEntities e;
  selectIds := selectIds e;
  upsertEmbeddings := upsertEmbeddings e;
  investorsJson := investorsJson e
|}.

(** The healthy environment started with [BATCH_SIZE=-10]. *)
Definition negativeBatch : @Env (list Z) := withBatchSize (Some (-10)%Z) healthy.

(** An environment whose roster file holds the given investors. *)
Definition withRoster (roster : list RawInvestor) (e : @Env (list Z)) : @Env (list Z) := {|
  SUPABASE_URL := SUPABASE_URL e;
  SUPABASE_ANON_KEY := SUPABASE_ANON_KEY e;
  VOYAGE_API_KEY := VOYAGE_API_KEY e;
  DEEPL_API_KEY := DEEPL_API_KEY e;
  BATCH_SIZE_env := BATCH_SIZE_env e;
  getFullYear := getFullYear e;
  statisticsFi := statisticsFi e;
  prh := prh e;
  deepl := deepl e;
  voyage := voyage e;
  upsertEntities := upsertEntities e;
  selectIds := selectIds e;
  upsertEmbeddings := upsertEmbeddings e;
  investorsJson := Resolved roster
|}.

Definition exampleInvestor : RawInvestor := {|
  investorId := js "inv-001";
  investorName := Some (js "Aura Ventures");
  role := Some (js "Partner");
  firm := Some (js "Aura");
  location := Some (js "Turku");
  preferred_industries := Some [js "Software"; js "Health"];
  business_models := Some [js "B2B"];
  preferred_rounds := Some [js "Seed"];
  geo_focus := Some [js "Nordics"];
  check_size_range := Some (js "100k-500k");
  investment_thesis := Some (js "Early-stage software");
  avoid_industries := None
|}.

(** The healthy environment with a roster of one investor. *)
Definition oneInvestor : @Env (list Z) := withRoster [exampleInvestor] healthy.
(** * Properties *)

(** ** Unfolding computations *)

Ltac run :=
  repeat (progress (
    unfold mbind, mret, Async_bind, Async_ret, bind, ret, throw, tryCatch,
           await, query, emit, getCache, setCache in *;
    cbn [fst snd trace industryClassifications logged] in *)).

Section Properties.

Context {Vec : Type}.
Variable env : @Env Vec.

Implicit Types (w : @World Vec) (text : jsstring).

(** ** Translator *)

Lemma isFinnishChar_spec (c : N) :
  isFinnishChar c = true <-> c ∈ finnishDiacritics.
Proof.
  change finnishDiacritics with [228; 246; 229; 196; 214; 197]%N.
  unfold isFinnishChar.
  rewrite !orb_true_iff, !N.eqb_eq, !elem_of_cons, elem_of_nil. tauto.
Qed.

Lemma finnishChars_test_false text :
  noDiacritics text -> finnishChars_test text = false.
Proof.
  unfold finnishChars_test, noDiacritics.
  induction 1 as [|c r Hc _ IH]; simpl; [done|].
  rewrite IH, orb_false_r.
  destruct (isFinnishChar c) eqn:E; [|done].
  apply isFinnishChar_spec in E. contradiction.
Qed.

Lemma isEnglishPatternChar_spec (c : N) :
  isEnglishPatternChar c = true <->
  ((65 ≤ c ∧ c ≤ 90)%N ∨ (97 ≤ c ∧ c ≤ 122)%N ∨ isWhiteSpace c = true
   ∨ c = comma ∨ c = period ∨ c = hyphen).
Proof.
  unfold isEnglishPatternChar, isAsciiLetter.
  rewrite !orb_true_iff, !andb_true_iff, !N.leb_le, !N.eqb_eq. tauto.
Qed.

Lemma englishPattern_test_true text :
  text ≠ [] -> plainAscii text -> englishPattern_test text = true.
Proof.
  intros Hne Hall. destruct text as [|c r]; [done|].
  unfold englishPattern_test. apply forallb_forall. intros x Hx.
  apply isEnglishPatternChar_spec.
  unfold plainAscii in Hall. rewrite Forall_forall in Hall.
  apply Hall. by apply list_elem_of_In.
Qed.

Lemma translate_skips text w :
  text = [] ∨ (noDiacritics text ∧ plainAscii text) ->
  translateToEnglish env text w = (Ok text, w).
Proof.
  intros [-> | [Hd Ha]]; [done|].
  destruct text as [|c r]; [done|].
  assert (Hne : c :: r ≠ []) by done.
  unfold translateToEnglish.
  by rewrite (finnishChars_test_false _ Hd), (englishPattern_test_true _ Hne Ha).
Qed.

(** C6. [translateToEnglish] returns its input and leaves the trace alone
    (no request is made) when the input is empty, or has no Finnish
    diacritic and consists of ASCII letters, white space, commas, periods
    and hyphens; so for the empty string and for ["Manufacturing"]. *)
Theorem translate_pass_through w :
  (forall text, text = [] ∨ (noDiacritics text ∧ plainAscii text) ->
                translateToEnglish env text w = (Ok text, w))
  ∧ translateToEnglish env (js "") w = (Ok (js ""), w)
  ∧ translateToEnglish env (js "Manufacturing") w = (Ok (js "Manufacturing"), w).
Proof.
  split; [intros text H; by apply translate_skips|].
  split; reflexivity.
Qed.

Lemma finnishChars_test_noDiacritics text :
  finnishChars_test text = false -> noDiacritics text.
Proof.
  unfold finnishChars_test, noDiacritics.
  induction text as [|c r IH]; simpl; [constructor|].
  intros [Hc Hr]%orb_false_iff. constructor; [|by apply IH].
  intros Hin%isFinnishChar_spec. congruence.
Qed.

Lemma englishPattern_test_plainAscii text :
  englishPattern_test text = true -> plainAscii text.
Proof.
  destruct text as [|c r]; [constructor|].
  unfold englishPattern_test, plainAscii. intros H.
  apply Forall_forall. intros x Hx. apply isEnglishPatternChar_spec.
  rewrite forallb_forall in H. apply H. by apply list_elem_of_In.
Qed.

Lemma translations_values_nonempty (k v : jsstring) :
  translations !! k = Some v -> v ≠ [].
Proof.
  unfold translations. intros H%elem_of_list_to_map_2.
  repeat (apply elem_of_cons in H as [H|H];
          [injection H as -> ->; vm_compute; discriminate|]).
  by apply elem_of_nil in H.
Qed.

Lemma translateFinnishToEnglishBasic_lookup text :
  translateFinnishToEnglishBasic text
  = match translations !! text with
    | Some entry => Text entry
    | None => if isInherited text then PrototypeMember text else Text text
    end.
Proof.
  unfold translateFinnishToEnglishBasic, getMember.
  destruct (translations !! text) as [v|] eqn:E.
  - apply translations_values_nonempty in E. by destruct v.
  - by destruct (isInherited text).
Qed.

(** What a rejected request leads to, for a text that is not passed
    through. *)
Lemma translate_falls_back text w e :
  text ≠ [] -> ¬ (noDiacritics text ∧ plainAscii text) ->
  deepl env (trace w) text = Rejected e ->
  translateToEnglish env text w
  = (match translateFinnishToEnglishBasic text with
     | Text translation => Ok translation
     | PrototypeMember _ => Throw substringTypeError
     end,
     logged w [PostTranslate text]).
Proof.
  intros Hne Hnot Hfail. destruct text as [|c r]; [done|].
  unfold translateToEnglish.
  destruct (negb (finnishChars_test (c :: r)) && englishPattern_test (c :: r)) eqn:G.
  - apply andb_true_iff in G as [G1%negb_true_iff G2]. exfalso. apply Hnot.
    split; [by apply finnishChars_test_noDiacritics|by apply englishPattern_test_plainAscii].
  - run. rewrite Hfail. by destruct (translateFinnishToEnglishBasic (c :: r)).
Qed.

(** C7.  The fallback dictionary maps ["Teollisuus"] to ["Manufacturing"],
    but [translateToEnglish] never consults it for that text: whatever the
    translation service would answer, ["Teollisuus"], being plain ASCII, is
    returned as it is and no request is made, so that no failure can turn
    it into ["Manufacturing"].  Seventeen of the forty-two keys of the
    dictionary are out of the translator's reach in this way. *)
Theorem Teollisuus_never_reaches_the_dictionary :
  translateFinnishToEnglishBasic (js "Teollisuus") = Text (js "Manufacturing")
  ∧ (forall w, translateToEnglish env (js "Teollisuus") w = (Ok (js "Teollisuus"), w))
  ∧ length dictionaryKeys = 42
  ∧ length (List.filter isPassedThrough dictionaryKeys) = 17.
Proof.
  split; [vm_compute; reflexivity|]. split; [reflexivity|].
  split; vm_compute; reflexivity.
Qed.

(** ** Classification cache *)

Lemma cacheItem_run (item : ClassificationItem) w m :
  industryClassifications w = Some m ->
  exists m', cacheItem (Some item) w
             = (Ok tt, {| industryClassifications := Some m'; trace := trace w |}).
Proof.
  intros Hw. unfold cacheItem. destruct (code item) as [[|c r]|].
  - exists m. run. destruct w. simpl in *. by subst.
  - eexists. run. reflexivity.
  - exists m. run. destruct w. simpl in *. by subst.
Qed.

Lemma forEach_cacheItem_keeps_cache (data : list (option ClassificationItem)) : forall w m,
  industryClassifications w = Some m ->
  exists r m', (forEach cacheItem data w).1 = r
               ∧ industryClassifications (forEach cacheItem data w).2 = Some m'
               ∧ trace (forEach cacheItem data w).2 = trace w
               ∧ (r = Ok tt ∨ None ∈ data).
Proof.
  induction data as [|item rest IH]; intros w m Hw.
  - exists (Ok tt), m. cbn [forEach]. run. auto.
  - cbn [forEach]. run. destruct item as [item|].
    + destruct (cacheItem_run item w m Hw) as (m1 & ->).
      destruct (IH {| industryClassifications := Some m1; trace := trace w |} m1 eq_refl)
        as (r' & m' & H1 & H2 & H3 & H4).
      exists r', m'. repeat split; try done.
      destruct H4; [by left|right; by apply elem_of_cons; right].
    + cbn [cacheItem]. run. eexists _, m. repeat split; try done. right. by left.
Qed.

Lemma fetch_cached w m :
  industryClassifications w = Some m ->
  fetchIndustryClassifications env w = (Ok m, w).
Proof. intros H. unfold fetchIndustryClassifications. run. by rewrite H. Qed.

Lemma fetch_rejected w e :
  industryClassifications w = None ->
  statisticsFi env (trace w) = Rejected e ->
  fetchIndustryClassifications env w = (Ok ∅, logged w [GetClassifications]).
Proof. intros H F. unfold fetchIndustryClassifications. run. by rewrite H, F. Qed.

Lemma fetch_resolved w data :
  industryClassifications w = None ->
  statisticsFi env (trace w) = Resolved data ->
  exists m,
    industryClassifications (fetchIndustryClassifications env w).2 = Some m
    ∧ trace (fetchIndustryClassifications env w).2 = trace w ++ [GetClassifications]
    ∧ ((fetchIndustryClassifications env w).1 = Ok m
       ∨ ((fetchIndustryClassifications env w).1 = Ok ∅ ∧ None ∈ classificationItems data)).
Proof.
  intros H F. unfold fetchIndustryClassifications. run. rewrite H, F. run.
  match goal with
  | |- context [forEach cacheItem ?d ?w0] =>
      destruct (forEach_cacheItem_keeps_cache d w0 ∅ eq_refl)
        as (r & m' & H1 & H2 & H3 & H4);
      destruct (forEach cacheItem d w0) as [r0 w1]
  end.
  run. subst r0. exists m'.
  destruct r as [[]|e]; run.
  - rewrite H2. cbn [default]. repeat split; try done. by left.
  - repeat split; try done. right. split; [done|]. by destruct H4.
Qed.

Lemma fetch_uncached_requests w :
  industryClassifications w = None ->
  trace (fetchIndustryClassifications env w).2 = trace w ++ [GetClassifications].
Proof.
  intros H. destruct (statisticsFi env (trace w)) as [data|e] eqn:F.
  - by destruct (fetch_resolved w data H F) as (m & _ & Ht & _).
  - by rewrite (fetch_rejected w e H F).
Qed.

(** C3, as amended.  Once the cache is set, [fetchIndustryClassifications]
    returns it and makes no request.  A call that finds the cache unset
    makes one request; when the request resolves, the cache is set and the
    call returns it (or an empty mapping, if a [null] item stopped the
    loading); when the request is rejected the call returns an empty
    mapping and the cache stays unset, so that the next call makes the
    request again. *)
Theorem classification_cache_memoizes_loaded_table :
  (forall w m, industryClassifications w = Some m ->
               fetchIndustryClassifications env w = (Ok m, w))
  ∧ (forall w data,
       industryClassifications w = None ->
       statisticsFi env (trace w) = Resolved data ->
       exists m,
         industryClassifications (fetchIndustryClassifications env w).2 = Some m
         ∧ trace (fetchIndustryClassifications env w).2 = trace w ++ [GetClassifications]
         ∧ ((fetchIndustryClassifications env w).1 = Ok m
            ∨ ((fetchIndustryClassifications env w).1 = Ok ∅
               ∧ None ∈ classificationItems data)))
  ∧ (forall w e,
       industryClassifications w = None ->
       statisticsFi env (trace w) = Rejected e ->
       fetchIndustryClassifications env w = (Ok ∅, logged w [GetClassifications])
       ∧ industryClassifications (logged w [GetClassifications]) = None
       ∧ trace (fetchIndustryClassifications env (logged w [GetClassifications])).2
         = trace w ++ [GetClassifications; GetClassifications]).
Proof.
  split; [apply fetch_cached|]. split; [apply fetch_resolved|].
  intros w e H F. split; [by apply (fetch_rejected w e)|]. split; [done|].
  rewrite fetch_uncached_requests by done. simpl. by rewrite <- app_assoc.
Qed.

(** ** Registry adapter: pagination *)

Lemma logged_logged w (a b : list (@Event Vec)) :
  logged (logged w a) b = logged w (a ++ b).
Proof. unfold logged. simpl. by rewrite <- app_assoc. Qed.

Lemma logged_nil w : logged w [] = w.
Proof. destruct w. unfold logged. simpl. by rewrite app_nil_r. Qed.

Lemma accumulated_S n :
  accumulated env (S n)
  = accumulated env n ++ List.filter (isValidCompany env) (pageRecords env (S n)).
Proof.
  unfold accumulated. rewrite seq_S, flat_map_app. simpl. by rewrite app_nil_r.
Qed.

Lemma fetchPages_run maxResults d : forall n w,
  50 - n ≤ d -> n < 50 ->
  length (accumulated env n) < maxResults ->
  exists k evs,
    S n ≤ k ∧ k ≤ 50
    ∧ stopsAt env maxResults k
    ∧ (forall p, S n ≤ p -> p < k -> ¬ stopsAt env maxResults p)
    ∧ (fetchPages env maxResults (S n) (accumulated env n) w).2 = logged w evs
    ∧ requestedPages evs = seq (S n) (k - n)
    ∧ Forall (fun ev => isVectorizeOrStore ev = false) evs
    ∧ (fetchPages env maxResults (S n) (accumulated env n) w).1
      = match prh env k with
        | Rejected e => Throw e
        | Resolved _ => Ok (accumulated env k)
        end.
Proof.
  induction d as [|d IH]; intros n w Hd Hn Hacc; [lia|].
  rewrite fetchPages_equation_1.
  destruct (decide (length (accumulated env n) < maxResults)) as [_|]; [|lia].
  assert (Hseq : seq (S n) (S n - n) = [S n]) by (replace (S n - n) with 1 by lia; done).
  run. destruct (prh env (S n)) as [data|e] eqn:Hp.
  - assert (Hrec : pageRecords env (S n) = pageDataOf data)
      by (unfold pageRecords; by rewrite Hp).
    destruct (decide (length (pageDataOf data) = 0)) as [Hz|Hz].
    { exists (S n), [GetCompanies (S n)]. rewrite Hp.
      repeat split; try done; try lia.
      - right. left. rewrite Hrec. lia.
      - repeat constructor.
      - simpl. rewrite accumulated_S, Hrec.
        destruct (pageDataOf data); [|done]. simpl. by rewrite app_nil_r. }
    destruct (decide (maxResults ≤ _)) as [Hm|Hm].
    { exists (S n), [GetCompanies (S n)]. rewrite Hp.
      repeat split; try done; try lia.
      - right. right. left. by rewrite accumulated_S, Hrec.
      - repeat constructor.
      - simpl. by rewrite accumulated_S, Hrec. }
    destruct (decide (length (pageDataOf data) < resultsPerPage)) as [Hs|Hs].
    { exists (S n), [GetCompanies (S n)]. rewrite Hp.
      repeat split; try done; try lia.
      - right. left. by rewrite Hrec.
      - repeat constructor.
      - simpl. by rewrite accumulated_S, Hrec. }
    destruct (decide (50 < S n + 1)) as [Hl|Hl].
    { exists (S n), [GetCompanies (S n)]. rewrite Hp.
      repeat split; try done; try lia.
      - right. right. right. lia.
      - repeat constructor.
      - simpl. by rewrite accumulated_S, Hrec. }
    replace (S n + 1) with (S (S n)) by lia.
    rewrite <- Hrec, <- accumulated_S.
    set (w1 := logged (logged w [GetCompanies (S n)]) [Sleep 200]).
    assert (Hacc' : length (accumulated env (S n)) < maxResults).
    { rewrite accumulated_S, Hrec. lia. }
    destruct (IH (S n) w1 ltac:(lia) ltac:(lia) Hacc')
      as (k & evs & Hk1 & Hk2 & Hstop & Hfirst & Hw & Hreq & Hev & Hres).
    exists k, ([GetCompanies (S n); Sleep 200] ++ evs).
    repeat split; try done; try lia.
    + intros p Hp1 Hp2. destruct (decide (p = S n)) as [->|Hne].
      * unfold stopsAt. rewrite Hp, Hrec. unfold resultsPerPage in Hs.
        intros [[e ?]|[?|[?|?]]]; try done; try lia.
      * apply Hfirst; lia.
    + rewrite Hw. unfold w1. by rewrite !logged_logged.
    + change (requestedPages ([GetCompanies (S n); Sleep 200] ++ evs))
        with (S n :: requestedPages evs).
      rewrite Hreq. replace (k - n) with (S (k - S n)) by lia. done.
    + repeat constructor. done.
  - exists (S n), [GetCompanies (S n)]. rewrite Hp.
    repeat split; try done; try lia.
    + left. by exists e.
    + repeat constructor.
Qed.

(** ** Registry adapter: normalization *)

Lemma translations_not_stored (evs : list (@Event Vec)) :
  Forall isTranslation evs ->
  Forall (fun ev => isVectorizeOrStore ev = false) evs ∧ requestedPages evs = [].
Proof.
  induction 1 as [|ev evs [t ->] _ [IH1 IH2]]; [done|].
  split; [by constructor|done].
Qed.

Lemma translate_trace text w :
  exists r evs, translateToEnglish env text w = (r, logged w evs)
                ∧ Forall isTranslation evs
                ∧ (r = Throw substringTypeError ∨ exists t, r = Ok t).
Proof.
  unfold translateToEnglish. destruct text as [|c r].
  { exists (Ok []), []. rewrite logged_nil. repeat split; [constructor|right; by eexists]. }
  destruct (negb _ && _).
  { exists (Ok (c :: r)), []. rewrite logged_nil.
    repeat split; [constructor|right; by eexists]. }
  run. destruct (deepl env (trace w) (c :: r)); [|destruct (translateFinnishToEnglishBasic _)];
    run; eexists _, [PostTranslate (c :: r)];
    (split; [done|split; [repeat constructor; by eexists|]]);
    first [by left | right; by eexists].
Qed.

(** Normalizing a record either gives its company or throws the
    translator's error. *)
Lemma processCompany_run classifications raw w :
  exists r evs,
    processCompany env classifications raw w = (r, logged w evs)
    ∧ Forall isTranslation evs
    ∧ (r = Throw substringTypeError ∨ exists company, r = Ok company ∧ normalizes raw company).
Proof.
  assert (Hquiet : forall categoryName,
    exists r evs,
      (Ok {| companyName := extractName raw;
             companyBusinessId := extractBusinessId raw;
             industryCode := orElse (businessLineType raw) [];
             details := {| detailsName := extractName raw;
                           detailsDescription := extractDescription raw;
                           detailsAddress := extractAddress raw;
                           detailsRegistrationDate := extractRegistrationDate raw;
                           categoryName := categoryName |} |}, w)
      = (r, logged w evs)
      ∧ Forall isTranslation evs
      ∧ (r = Throw substringTypeError
         ∨ exists company, r = Ok company ∧ normalizes raw company)).
  { intros c. eexists _, []. rewrite logged_nil.
    split; [reflexivity|]. split; [constructor|]. right. eexists. split; [done|].
    by repeat split. }
  unfold processCompany, resolveCategoryName. run.
  destruct (businessLineType raw) as [[|c r]|] eqn:E; try apply Hquiet.
  destruct (truthyValue (lookupEntry classifications (c :: r))); run; [|apply Hquiet].
  destruct (truthy (valueName (lookupEntry classifications (c :: r)))
            && valueIsFinnish (lookupEntry classifications (c :: r))); run;
    [|apply Hquiet].
  destruct (translate_trace (orElse (valueName (lookupEntry classifications (c :: r))) []) w)
    as (t & evs & -> & Hev & Hr).
  destruct Hr as [->|[t' ->]].
  - eexists _, evs. split; [reflexivity|]. split; [done|]. by left.
  - eexists _, evs. split; [reflexivity|]. split; [done|]. right.
    eexists. split; [done|]. unfold normalizes. cbn. by rewrite E.
Qed.

Lemma forPush_processCompany_run classifications raws : forall w,
  exists r evs,
    forPush (processCompany env classifications) raws w = (r, logged w evs)
    ∧ Forall isTranslation evs
    ∧ (r = Throw substringTypeError
       ∨ exists companies, r = Ok companies ∧ Forall2 (normalizes) raws companies).
Proof.
  induction raws as [|raw raws IH]; intros w.
  { exists (Ok []), []. rewrite logged_nil. repeat split; [constructor|].
    right. by exists []. }
  destruct (processCompany_run classifications raw w) as (r1 & evs1 & H1 & He1 & Hr1).
  cbn [forPush]. run. rewrite H1.
  destruct Hr1 as [->|(c & -> & Hn)].
  { exists (Throw substringTypeError), evs1. repeat split; [done|by left]. }
  destruct (IH (logged w evs1)) as (r2 & evs2 & H2 & He2 & Hr2).
  rewrite H2, logged_logged.
  destruct Hr2 as [->|(cs & -> & Hns)].
  - exists (Throw substringTypeError), (evs1 ++ evs2).
    repeat split; [by apply Forall_app|by left].
  - exists (Ok (c :: cs)), (evs1 ++ evs2).
    repeat split; [by apply Forall_app|]. right. eexists. split; [done|by constructor].
Qed.

Lemma fetchIndustryClassifications_run w :
  exists m w1 evs,
    fetchIndustryClassifications env w = (Ok m, w1)
    ∧ trace w1 = trace w ++ evs
    ∧ Forall (fun ev => ev = GetClassifications) evs.
Proof.
  destruct (industryClassifications w) as [m|] eqn:Hc.
  { exists m, w, []. rewrite (fetch_cached w m Hc), app_nil_r. by repeat split. }
  destruct (statisticsFi env (trace w)) as [data|e] eqn:F.
  - destruct (fetch_resolved w data Hc F) as (m & H1 & H2 & H3).
    destruct (fetchIndustryClassifications env w) as [r w1]. simpl in *.
    destruct H3 as [->|[-> _]]; eexists _, w1, [GetClassifications];
      repeat split; try done; by repeat constructor.
  - rewrite (fetch_rejected w e Hc F). eexists _, _, [GetClassifications].
    repeat split; try done. by repeat constructor.
Qed.

Lemma classification_requests_not_stored (evs : list (@Event Vec)) :
  Forall (fun ev => ev = GetClassifications) evs ->
  Forall (fun ev => isVectorizeOrStore ev = false) evs ∧ requestedPages evs = [].
Proof.
  induction 1 as [|ev evs -> _ [IH1 IH2]]; [done|].
  split; [by constructor|done].
Qed.

Lemma requestedPages_app (a b : list (@Event Vec)) :
  requestedPages (a ++ b) = requestedPages a ++ requestedPages b.
Proof. apply omap_app. Qed.

(** What a call of the adapter does, in terms of the listing. *)
Lemma fetchCompaniesFromAPI_run maxResults w :
  exists k evs,
    trace (fetchCompaniesFromAPI env maxResults w).2 = trace w ++ evs
    ∧ Forall (fun ev => isVectorizeOrStore ev = false) evs
    ∧ requestedPages evs = seq 1 k
    ∧ k ≤ 50
    ∧ (k = 0 <-> maxResults = 0)
    ∧ (0 < k -> stopsAt env maxResults k)
    ∧ (forall p, 1 ≤ p -> p < k -> ¬ stopsAt env maxResults p)
    ∧ match prh env k with
      | Rejected e =>
          if decide (k = 0)
          then (fetchCompaniesFromAPI env maxResults w).1 = Ok []
          else (fetchCompaniesFromAPI env maxResults w).1 = Throw e
      | Resolved _ =>
          (fetchCompaniesFromAPI env maxResults w).1 = Throw substringTypeError
          ∨ exists companies,
              (fetchCompaniesFromAPI env maxResults w).1 = Ok companies
              ∧ Forall2 (normalizes) (take maxResults (accumulated env k)) companies
      end.
Proof.
  unfold fetchCompaniesFromAPI. run.
  destruct (fetchIndustryClassifications_run w) as (m & w1 & evs0 & -> & Ht0 & He0).
  apply classification_requests_not_stored in He0 as [He0 Hp0].
  destruct (decide (maxResults = 0)) as [->|Hpos].
  - rewrite fetchPages_equation_1. simpl. run.
    exists 0, evs0. repeat split; try done; try lia.
    destruct (prh env 0); [|done]. right. exists []. split; [done|constructor].
  - destruct (fetchPages_run maxResults 50 0 w1 ltac:(lia) ltac:(lia))
      as (k & evs & Hk1 & Hk2 & Hstop & Hfirst & Hw & Hreq & Hev & Hres).
    { simpl. lia. }
    change (accumulated env 0) with (@nil RawCompany) in *.
    destruct (fetchPages env maxResults 1 [] w1) as [r2 w2]. simpl in Hw, Hres. subst r2 w2.
    rewrite Nat.sub_0_r in Hreq.
    destruct (prh env k) as [data|e] eqn:Hp.
    + destruct (decide (length (accumulated env k) = 0)) as [Hz|Hz].
      * exists k, (evs0 ++ evs). simpl. rewrite Ht0, <- app_assoc.
        repeat split; try done; try lia.
        -- by apply Forall_app.
        -- by rewrite requestedPages_app, Hp0.
        -- rewrite Hp. right. exists []. split; [done|].
           destruct (accumulated env k); [|done]. rewrite take_nil. constructor.
      * unfold slice. rewrite Nat.sub_0_r, drop_0.
        destruct (forPush_processCompany_run m (take maxResults (accumulated env k))
                    (logged w1 evs)) as (r3 & evs2 & -> & He2 & Hn).
        apply translations_not_stored in He2 as [He2 Hp2].
        exists k, (evs0 ++ evs ++ evs2).
        assert (Htrace : trace (logged (logged w1 evs) evs2)
                         = trace w ++ evs0 ++ evs ++ evs2).
        { cbn [trace logged]. by rewrite Ht0, <- !app_assoc. }
        destruct Hn as [->|(cs & -> & Hn)]; run; rewrite Htrace;
          (repeat split; try done; try lia;
           [apply Forall_app; split; [done|]; by apply Forall_app
           |by rewrite !requestedPages_app, Hp0, Hp2, app_nil_r
           |rewrite Hp]).
        -- by left.
        -- right. by exists cs.
    + exists k, (evs0 ++ evs). simpl. rewrite Ht0, <- app_assoc.
      repeat split; try done; try lia.
      * by apply Forall_app.
      * by rewrite requestedPages_app, Hp0.
      * rewrite Hp. destruct (decide (k = 0)); [lia|done].
Qed.

Lemma isValidCompany_spec (raw : RawCompany) :
  isValidCompany env raw = true
  <-> exists y, registrationYear env raw = Some y ∧ (2020 ≤ y)%Z
                ∧ truthy (businessLineType raw) = true.
Proof.
  unfold isValidCompany. destruct (registrationYear env raw) as [y|].
  - rewrite andb_true_iff, Z.leb_le. split.
    + intros [H1 H2]. by exists y.
    + intros (y' & [= <-] & H1 & H2). done.
  - split; [done|]. by intros (y & ? & _).
Qed.

Lemma accumulated_filter n :
  accumulated env n
  = List.filter (isValidCompany env) (flat_map (pageRecords env) (seq 1 n)).
Proof.
  unfold accumulated. induction (seq 1 n) as [|p ps IH]; [done|].
  simpl. by rewrite List.filter_app, IH.
Qed.


(** C5.  The companies the adapter returns are the normalizations, in
    order, of the first [maxResults] records of the requested pages that
    pass the filter: each has a registration year of at least 2020 and an
    industry code, and no record failing either condition is among
    them. *)
Theorem fetched_companies_pass_both_filters maxResults w companies w' :
  fetchCompaniesFromAPI env maxResults w = (Ok companies, w') ->
  exists k raws,
    requestedPages (trace w') = requestedPages (trace w) ++ seq 1 k
    ∧ raws = take maxResults
               (List.filter (isValidCompany env) (flat_map (pageRecords env) (seq 1 k)))
    ∧ Forall2 (normalizes) raws companies
    ∧ Forall (fun raw => exists y, registrationYear env raw = Some y ∧ (2020 ≤ y)%Z
                                   ∧ truthy (businessLineType raw) = true) raws
    ∧ (forall raw,
         (forall y, registrationYear env raw = Some y -> (y < 2020)%Z)
         ∨ truthy (businessLineType raw) = false ->
         raw ∉ raws).
Proof.
  intros Hrun.
  destruct (fetchCompaniesFromAPI_run maxResults w)
    as (k & evs & Ht & _ & Hreq & Hk & Hzero & _ & _ & Hres).
  rewrite Hrun in Ht, Hres. simpl in Ht, Hres.
  assert (Hvalid : Forall (fun raw => isValidCompany env raw = true)
                     (take maxResults (accumulated env k))).
  { apply Forall_take, Forall_forall. intros raw Hin.
    rewrite accumulated_filter in Hin. apply list_elem_of_In, filter_In in Hin. tauto. }
  exists k, (take maxResults (accumulated env k)).
  split; [by rewrite Ht, requestedPages_app, Hreq|].
  split; [by rewrite accumulated_filter|]. split; [|split].
  - destruct (prh env k).
    + by destruct Hres as [?|(cs & [= <-] & Hn)].
    + destruct (decide (k = 0)) as [->|]; [|done].
      injection Hres as ->. change (accumulated env 0) with (@nil RawCompany).
      rewrite take_nil. constructor.
  - eapply Forall_impl; [exact Hvalid|]. intros raw. by rewrite isValidCompany_spec.
  - intros raw Hfail Hin. rewrite Forall_forall in Hvalid.
    apply Hvalid, isValidCompany_spec in Hin as (y & Hy & Hge & Hcode).
    destruct Hfail as [Hyear|Hno]; [|congruence].
    specialize (Hyear y Hy). lia.
Qed.

(** ** Registry adapter: address composition *)

(** The address of the specification's example is composed as stated. *)
Lemma address_example :
  composeAddress mannerheimintie = js "Mannerheimintie10, 00100 Helsinki"
  ∧ extractAddress (companyAt mannerheimintie) = js "Mannerheimintie10, 00100 Helsinki".
Proof. split; vm_compute; reflexivity. Qed.

(** C8.  For the visiting address street ["Mannerheimintie"], building
    number ["10"], city ["Helsinki"] and no postal code, entrance or
    apartment number, the normalizer composes
    ["Mannerheimintie10,  Helsinki"], with two spaces after the comma: the
    missing postal code leaves a double space in the address. *)
Theorem address_without_post_code_has_double_space :
  composeAddress mannerheimintieWithoutPostCode = js "Mannerheimintie10,  Helsinki"
  ∧ extractAddress (companyAt mannerheimintieWithoutPostCode)
    = js "Mannerheimintie10,  Helsinki"
  ∧ exists before after,
      extractAddress (companyAt mannerheimintieWithoutPostCode)
      = before ++ js "  " ++ after.
Proof.
  split; [vm_compute; reflexivity|]. split; [vm_compute; reflexivity|].
  exists (js "Mannerheimintie10,"), (js "Helsinki"). vm_compute. reflexivity.
Qed.

(** ** Batch vectorizer *)

Lemma embeddingRequests_app (a b : list (@Event Vec)) :
  embeddingRequests (a ++ b) = embeddingRequests a ++ embeddingRequests b.
Proof. apply omap_app. Qed.

Lemma batchCount_more n j : 100 * j < n -> j < batchCount n.
Proof.
  unfold batchCount. intros H.
  apply Nat.div_le_lower_bound; lia.
Qed.

Lemma batchCount_done n j : ¬ 100 * j < n -> batchCount n ≤ j.
Proof.
  unfold batchCount. intros H.
  assert ((n + 99) / 100 < S j); [|lia].
  apply Nat.Div0.div_lt_upper_bound. lia.
Qed.

Lemma chunks_cover texts d : forall j,
  batchCount (length texts) - j ≤ d ->
  concat (map (chunk texts) (seq j (batchCount (length texts) - j)))
  = drop (100 * j) texts.
Proof.
  induction d as [|d IH]; intros j Hd.
  - replace (batchCount (length texts) - j) with 0 by lia. simpl.
    destruct (decide (100 * j < length texts)) as [Hlt|Hge].
    + apply batchCount_more in Hlt. lia.
    + rewrite drop_ge by lia. done.
  - destruct (decide (100 * j < length texts)) as [Hlt|Hge].
    + apply batchCount_more in Hlt.
      replace (batchCount (length texts) - j)
        with (S (batchCount (length texts) - S j)) by lia.
      cbn [seq map concat]. rewrite IH by lia. unfold chunk.
      replace (100 * S j) with (100 * j + 100) by lia.
      by rewrite <- drop_drop, take_drop.
    + apply batchCount_done in Hge as Hn.
      replace (batchCount (length texts) - j) with 0 by lia.
      rewrite drop_ge by lia. done.
Qed.

Lemma app_eq_middle {A} (l1 l2 : list A) x : forall before after,
  l1 ++ l2 = before ++ x :: after ->
  (exists after', l1 = before ++ x :: after' ∧ after = after' ++ l2)
  ∨ (exists before', before = l1 ++ before' ∧ l2 = before' ++ x :: after).
Proof.
  induction l1 as [|y l1 IH]; intros before after H.
  - right. by exists before.
  - destruct before as [|z before]; simpl in H.
    + injection H as -> <-. left. by exists l1.
    + injection H as -> H.
      destruct (IH _ _ H) as [(a' & -> & ->)|(b' & -> & ->)].
      * left. by exists a'.
      * right. by exists b'.
Qed.

Section Aligned.

(** [embeds text vector]: the vector is an embedding of the text. *)
Variable embeds : jsstring -> Vec -> Prop.

Hypothesis voyage_answers_in_order : forall h batch,
  exists items, voyage env h batch = Resolved items
                ∧ Forall2 embeds batch (map embedding items).

Lemma vectorizeBatches_aligned texts d : forall j allVectors w,
  batchCount (length texts) - j ≤ d ->
  exists vectors evs,
    vectorizeBatches env texts (100 * j) allVectors w
    = (Ok (allVectors ++ vectors), logged w evs)
    ∧ Forall2 embeds (drop (100 * j) texts) vectors
    ∧ embeddingRequests evs
      = map (chunk texts) (seq j (batchCount (length texts) - j))
    ∧ Forall isVectorizerEvent evs.
Proof.
  induction d as [|d IH]; intros j acc w Hd;
    rewrite vectorizeBatches_equation_1;
    destruct (decide (100 * j < length texts)) as [Hlt|Hge].
  2, 4: (exists [], []; rewrite app_nil_r, logged_nil;
         apply batchCount_done in Hge as Hn;
         replace (batchCount (length texts) - j) with 0 by lia;
         rewrite drop_ge by lia; repeat split; constructor).
  - apply batchCount_more in Hlt. lia.
  - unfold slice, batchSize.
    replace (100 * j + 100 - 100 * j) with 100 by lia.
    destruct (voyage_answers_in_order (trace w) (take 100 (drop (100 * j) texts)))
      as (items & Hv & Hal).
    run. rewrite Hv.
    replace (100 * j + 100) with (100 * S j) by lia.
    apply batchCount_more in Hlt as Hj.
    assert (Hcont : forall pause : list (@Event Vec),
      Forall isVectorizerEvent pause -> embeddingRequests pause = [] ->
      exists vectors evs,
        vectorizeBatches env texts (100 * S j) (acc ++ map embedding items)
          (logged w (PostEmbeddings (take 100 (drop (100 * j) texts)) :: pause))
        = (Ok (acc ++ vectors), logged w evs)
        ∧ Forall2 embeds (drop (100 * j) texts) vectors
        ∧ embeddingRequests evs
          = map (chunk texts) (seq j (batchCount (length texts) - j))
        ∧ Forall isVectorizerEvent evs).
    { intros pause Hpause Hnone.
      destruct (IH (S j) (acc ++ map embedding items)
                  (logged w (PostEmbeddings (take 100 (drop (100 * j) texts)) :: pause))
                  ltac:(lia))
        as (vs & evs & Hrun & Hemb & Hreq & Hev).
      exists (map embedding items ++ vs),
             ((PostEmbeddings (take 100 (drop (100 * j) texts)) :: pause) ++ evs).
      rewrite Hrun, logged_logged, <- app_assoc. repeat split.
      - rewrite <- (take_drop 100 (drop (100 * j) texts)), drop_drop.
        replace (100 * j + 100) with (100 * S j) by lia.
        by apply Forall2_app.
      - rewrite embeddingRequests_app.
        change (embeddingRequests (PostEmbeddings ?b :: pause))
          with (b :: embeddingRequests pause).
        rewrite Hnone, Hreq.
        replace (batchCount (length texts) - j)
          with (S (batchCount (length texts) - S j)) by lia.
        done.
      - apply Forall_app. split; [|done].
        constructor; [left; by eexists|done]. }
    destruct (decide (100 * S j < length texts)); run.
    + rewrite logged_logged. apply Hcont; [|done].
      constructor; [by right|constructor].
    + apply Hcont; [constructor|done].
Qed.

(** C1.  When every embedding request is answered with one vector per
    input text, in input order, [vectorizeWithVoyage] returns a list of
    vectors as long as its input whose i-th vector embeds the i-th text;
    it issues one request per consecutive chunk of 100 texts, in order, and
    the chunks make up the input. *)
Theorem vectorize_keeps_length_and_order texts w :
  exists vectors evs,
    vectorizeWithVoyage env texts w = (Ok vectors, logged w evs)
    ∧ length vectors = length texts
    ∧ Forall2 embeds texts vectors
    ∧ embeddingRequests evs = map (chunk texts) (seq 0 (batchCount (length texts)))
    ∧ concat (embeddingRequests evs) = texts.
Proof.
  unfold vectorizeWithVoyage.
  destruct (vectorizeBatches_aligned texts (batchCount (length texts)) 0 [] w ltac:(lia))
    as (vectors & evs & Hrun & Hal & Hreq & _).
  rewrite Nat.sub_0_r in Hreq. change (100 * 0) with 0 in *. rewrite drop_0 in Hal.
  exists vectors, evs. split; [exact Hrun|].
  split; [symmetry; by eapply Forall2_length|]. split; [done|]. split; [done|].
  rewrite Hreq.
  pose proof (chunks_cover texts (batchCount (length texts)) 0 ltac:(lia)) as Hc.
  rewrite Nat.sub_0_r in Hc. by rewrite Hc.
Qed.

End Aligned.

Lemma vectorizeBatches_failure texts d : forall i allVectors w,
  length texts - i ≤ d ->
  exists evs,
    (vectorizeBatches env texts i allVectors w).2 = logged w evs
    ∧ Forall isVectorizerEvent evs
    ∧ forall before batch after e,
        evs = before ++ PostEmbeddings batch :: after ->
        voyage env (trace w ++ before) batch = Rejected e ->
        (vectorizeBatches env texts i allVectors w).1 = Throw e ∧ after = [].
Proof.
  induction d as [|d IH]; intros i acc w Hd;
    rewrite vectorizeBatches_equation_1;
    destruct (decide (i < length texts)) as [Hlt|Hge]; try lia.
  1, 3: (exists []; rewrite logged_nil; split; [done|]; split; [constructor|];
         intros [|? ?] ? ? ? ?; discriminate).
  set (batch0 := slice texts i (i + batchSize)).
  run. destruct (voyage env (trace w) batch0) as [items|e0] eqn:Hv.
  - assert (Hcont : forall pause : list (@Event Vec),
      Forall isVectorizerEvent pause ->
      Forall (fun ev => forall b, ev ≠ PostEmbeddings b) pause ->
      exists evs,
        (vectorizeBatches env texts (i + batchSize) (acc ++ map embedding items)
           (logged w (PostEmbeddings batch0 :: pause))).2 = logged w evs
        ∧ Forall isVectorizerEvent evs
        ∧ forall before batch after e,
            evs = before ++ PostEmbeddings batch :: after ->
            voyage env (trace w ++ before) batch = Rejected e ->
            (vectorizeBatches env texts (i + batchSize) (acc ++ map embedding items)
               (logged w (PostEmbeddings batch0 :: pause))).1 = Throw e
            ∧ after = []).
    { intros pause Hpause Hnone.
      destruct (IH (i + batchSize) (acc ++ map embedding items)
                  (logged w (PostEmbeddings batch0 :: pause)))
        as (evs & Hw & Hev & Hfail); [unfold batchSize; lia|].
      exists ((PostEmbeddings batch0 :: pause) ++ evs).
      rewrite Hw, logged_logged. split; [done|]. split.
      { apply Forall_app. split; [|done]. constructor; [left; by eexists|done]. }
      intros before batch after e Heq Hrej.
      destruct before as [|x before]; simpl in Heq.
      { injection Heq as <- _. rewrite app_nil_r in Hrej. congruence. }
      injection Heq as <- Heq.
      apply app_eq_middle in Heq as [(a' & -> & ->)|(b' & -> & ->)].
      - rewrite Forall_app, Forall_cons in Hnone. destruct Hnone as (_ & Hb & _).
        by specialize (Hb batch).
      - apply (Hfail b' batch after e); [done|].
        cbn [trace logged]. by rewrite <- app_assoc. }
    destruct (decide (i + batchSize < length texts)); run.
    + rewrite logged_logged. apply Hcont.
      * constructor; [by right|constructor].
      * constructor; [done|constructor].
    + apply Hcont; constructor.
  - run. exists [PostEmbeddings batch0]. split; [done|]. split.
    { constructor; [left; by eexists|constructor]. }
    intros before batch after e Heq Hrej.
    destruct before as [|x before]; simpl in Heq.
    + injection Heq as <- <-. rewrite app_nil_r in Hrej. split; [congruence|done].
    + injection Heq as _ Heq. by destruct before.
Qed.

(** ** Upsert store writer *)

Lemma BATCH_SIZE_nonzero : BATCH_SIZE env ≠ 0%Z.
Proof.
  unfold BATCH_SIZE. destruct (BATCH_SIZE_env env) as [n|]; [|done].
  destruct (n =? 0)%Z eqn:E; [done|]. by apply Z.eqb_neq.
Qed.

(** [slice] between two indices that are not negative. *)
Lemma sliceZ_take_drop {A} (l : list A) (i n : nat) :
  sliceZ l (Z.of_nat i) (Z.of_nat i + Z.of_nat n) = take n (drop i l).
Proof.
  unfold sliceZ.
  destruct (Z.of_nat i <? 0)%Z eqn:E1; [apply Z.ltb_lt in E1; lia|].
  destruct (Z.of_nat i + Z.of_nat n <? 0)%Z eqn:E2; [apply Z.ltb_lt in E2; lia|].
  destruct (decide (i ≤ length l)) as [Hi|Hi].
  - replace (Z.to_nat (Z.of_nat i `min` Z.of_nat (length l))) with i by lia.
    destruct (decide (n ≤ length l - i)) as [Hn|Hn].
    + f_equal. lia.
    + rewrite !take_ge; [done|rewrite length_drop; lia|rewrite length_drop; lia].
  - rewrite !drop_ge by lia. by rewrite !take_nil.
Qed.

(** [slice] from a negative index by a negative width is empty. *)
Lemma sliceZ_negative {A} (l : list A) (i size : Z) :
  (i < 0)%Z -> (size < 0)%Z -> sliceZ l i (i + size) = [].
Proof.
  intros Hi Hs. unfold sliceZ.
  destruct (i <? 0)%Z eqn:E1; [|apply Z.ltb_ge in E1; lia].
  destruct (i + size <? 0)%Z eqn:E2; [|apply Z.ltb_ge in E2; lia].
  replace (Z.to_nat _) with 0 by lia. done.
Qed.

(** [slice] from the start by a negative width leaves the last items
    out. *)
Lemma sliceZ_all_but_last {A} (l : list A) (size : Z) :
  (size < 0)%Z -> sliceZ l 0 (0 + size) = take (length l - Z.to_nat (- size)) l.
Proof.
  intros Hs. unfold sliceZ. change (0 <? 0)%Z with false. cbn iota.
  destruct (0 + size <? 0)%Z eqn:E; [|apply Z.ltb_ge in E; lia].
  replace (0 `min` Z.of_nat (length l))%Z with 0%Z by lia.
  change (Z.to_nat 0) with 0. rewrite drop_0. f_equal. lia.
Qed.

Lemma embeddingRowsWritten_cons table rows (evs : list (@Event Vec)) :
  embeddingRowsWritten (UpsertEmbeddings table rows :: evs)
  = rows ++ embeddingRowsWritten evs.
Proof. done. Qed.

(** What the store loop adds to the trace, whatever the batch size and
    however long it is followed: upserts only, and a refused upsert is the
    last of them and is thrown. *)
Lemma insertBatches_log table (data : list (@EmbeddingRow Vec)) fuel : forall i w,
  exists evs,
    (insertBatches env table fuel data i w).2 = logged w evs
    ∧ Forall (fun ev => isStoreEvent ev = true) evs
    ∧ forall before rows after e,
        evs = before ++ UpsertEmbeddings table rows :: after ->
        upsertEmbeddings env (trace w ++ before) table rows = Some e ->
        (insertBatches env table fuel data i w).1 = Some (Throw e) ∧ after = [].
Proof.
  assert (Hnone : forall (r : option (Result unit)) w,
    exists evs, (r, w).2 = logged w evs
      ∧ Forall (fun ev => isStoreEvent ev = true) evs
      ∧ forall before rows after e,
          evs = before ++ UpsertEmbeddings table rows :: after ->
          upsertEmbeddings env (trace w ++ before) table rows = Some e ->
          (r, w).1 = Some (Throw e) ∧ after = []).
  { intros r w. exists []. rewrite logged_nil. split; [done|]. split; [constructor|].
    intros [|? ?] ? ? ? ?; discriminate. }
  induction fuel as [|fuel IH]; intros i w; cbn [insertBatches];
    destruct (decide (i < Z.of_nat (length data))%Z) as [Hlt|Hge];
    try apply Hnone.
  unfold andThen, finished. run.
  set (batch := sliceZ data i (i + BATCH_SIZE env)).
  destruct (upsertEmbeddings env (trace w) table batch) as [e0|] eqn:Hu; run.
  - exists [UpsertEmbeddings table batch]. split; [done|].
    split; [by repeat constructor|].
    intros before rows after e Heq Hrej.
    destruct before as [|x before]; simpl in Heq.
    + injection Heq as <- <-. rewrite app_nil_r in Hrej. split; [congruence|done].
    + injection Heq as _ Heq. by destruct before.
  - destruct (IH (i + BATCH_SIZE env)%Z (logged w [UpsertEmbeddings table batch]))
      as (evs & Hw & Hev & Hfail).
    exists (UpsertEmbeddings table batch :: evs).
    rewrite Hw, logged_logged. split; [done|]. split; [by constructor|].
    intros before rows after e Heq Hrej.
    destruct before as [|x before]; simpl in Heq.
    + injection Heq as <- _. rewrite app_nil_r in Hrej. congruence.
    + injection Heq as <- Heq. apply (Hfail before rows after e Heq).
      cbn [trace logged]. by rewrite <- app_assoc.
Qed.

(** With a positive batch size, one iteration per batch is enough for the
    loop to end; when nothing is refused it returns, having written the
    rows from [i] on, in order. *)
Lemma insertBatches_run table (data : list (@EmbeddingRow Vec)) (size : nat) :
  BATCH_SIZE env = Z.of_nat size -> 0 < size ->
  (forall h rows, upsertEmbeddings env h table rows = None) ->
  forall fuel (i : nat) w,
    length data - i ≤ fuel ->
    exists evs,
      insertBatches env table fuel data (Z.of_nat i) w = (Some (Ok tt), logged w evs)
      ∧ embeddingRowsWritten evs = drop i data.
Proof.
  intros Hsize Hpos Hok.
  induction fuel as [|fuel IH]; intros i w Hd; cbn [insertBatches];
    destruct (decide (Z.of_nat i < Z.of_nat (length data))%Z) as [Hlt|Hge]; try lia.
  1, 3: (exists []; rewrite logged_nil; split; [done|]; rewrite drop_ge by lia; done).
  unfold andThen. run. rewrite Hok, Hsize, sliceZ_take_drop.
  replace (Z.of_nat i + Z.of_nat size)%Z with (Z.of_nat (i + size)) by lia.
  destruct (IH (i + size) (logged w [UpsertEmbeddings table (take size (drop i data))]))
    as (evs & -> & Hrows); [lia|].
  exists (UpsertEmbeddings table (take size (drop i data)) :: evs).
  rewrite logged_logged. split; [done|].
  rewrite embeddingRowsWritten_cons, Hrows.
  by rewrite <- drop_drop, take_drop.
Qed.

Lemma embeddingData_aligned {Entity : Type} (key : Entity -> jsstring) ids :
  forall (entities : list Entity) (vectors : list Vec),
    length entities = length vectors ->
    embeddingData key ids entities vectors = alignedRows ids key entities vectors.
Proof.
  unfold embeddingData, alignedRows.
  induction entities as [|entity entities IH]; intros [|v vectors] Hlen;
    try done; simpl in Hlen.
  rewrite imap_cons. cbn [List.filter zip zip_with omap list_omap].
  erewrite imap_ext; [rewrite (IH vectors) by lia|done].
  unfold pairedRow. cbn [entity_id fst snd]. change ((v :: vectors) !! 0) with (Some v).
  by destruct (truthyId (getMember ids (key entity))).
Qed.

(** The id map has an own entry exactly for the keys of the read-back,
    [__proto__] excepted. *)
Lemma idsByNaturalKey_absent (records : list IdRecord) (k : jsstring) :
  idsByNaturalKey records !! k = None <-> k = protoKey ∨ k ∉ map natural_key records.
Proof.
  unfold idsByNaturalKey.
  assert (H : forall m0 : gmap jsstring Z,
    foldl (fun m record => setPrimitive m (natural_key record) (rowId record)) m0 records
      !! k = None
    <-> m0 !! k = None ∧ (k = protoKey ∨ k ∉ map natural_key records)).
  { induction records as [|r rs IH]; intros m0; simpl.
    - split; [intros ?; split; [done|right; apply not_elem_of_nil]|tauto].
    - rewrite IH, not_elem_of_cons. unfold setPrimitive.
      destruct (bool_decide_reflect (natural_key r = protoKey)) as [Hp|Hp].
      + destruct (decide (k = protoKey)) as [->|Hk]; [tauto|].
        split; [|tauto]. intros [H0 [?|Hin]]; [done|]. split; [done|].
        right. split; [congruence|done].
      + rewrite lookup_insert_None. intuition congruence. }
  rewrite H, lookup_empty. tauto.
Qed.

Section StoreWriter.

Context {Entity : Type}.
Variable entityTable embeddingsTable : string.
Variable toRow : Entity -> EntityRow.
Variable naturalKey : Entity -> jsstring.

Lemma storeInSupabase_events fuel (entities : list Entity) (vectors : list Vec) w :
  exists evs,
    (storeInSupabase env entityTable embeddingsTable toRow naturalKey fuel
       entities vectors w).2
    = logged w evs
    ∧ Forall (fun ev => isStoreEvent ev = true) evs.
Proof.
  unfold storeInSupabase, tryCatchPartial, andThen, finished. run.
  destruct (upsertEntities env (trace w) entityTable (map toRow entities)); run.
  { eexists [_]. split; [done|]. by repeat constructor. }
  destruct (selectIds _ _ _ _) as [records|e]; run.
  - match goal with
    | |- context [insertBatches env ?t fuel ?d 0%Z ?w0] =>
        destruct (insertBatches_log t d fuel 0%Z w0) as (evs & Hw & Hev & _);
        destruct (insertBatches env t fuel d 0%Z w0) as [r w1]
    end.
    cbn [snd] in Hw. subst w1. rewrite !logged_logged.
    eexists. split; [by destruct r as [[|]|]|].
    cbn [app]. constructor; [done|]. by constructor.
  - rewrite !logged_logged. eexists. split; [done|]. by repeat constructor.
Qed.

End StoreWriter.

(** C2.  An investor whose id is ["constructor"] is stored, and the
    read-back holds no record for it.  The lookup in the id map, a plain
    object, finds the inherited member [constructor] all the same, which is
    truthy: the filter keeps the row, and the writer sends an embedding row
    whose id is that member and not a surrogate id. *)
Theorem unmapped_investor_named_constructor_gets_a_row :
  let investor := processInvestorData investorNamedConstructor in
  (forall h, selectIds readBackWithoutConstructor h "investor" [investor_id investor]
             = SelectData [])
  ∧ storeInvestors readBackWithoutConstructor 1 [investor] [[7%Z]] start
    = (Some (Ok tt),
       logged start
         [ UpsertEntities "investor"
             [InvestorRow (js "constructor") investorNamedConstructor];
           SelectIds "investor" [js "constructor"];
           UpsertEmbeddings "investor_embeddings"
             [ {| entity_id := Inherited (js "constructor");
                  embeddings := Some [7%Z] |} ] ]).
Proof. split; [intros h|]; vm_compute; reflexivity. Qed.

(** ** The pipelines *)

Lemma vectorizer_events_not_store (evs : list (@Event Vec)) :
  Forall isVectorizerEvent evs -> Forall (fun ev => isStoreEvent ev = false) evs.
Proof.
  intros H. eapply Forall_impl; [exact H|]. by intros ev [[input ->]| ->].
Qed.

Lemma quiet_events_not_store (evs : list (@Event Vec)) :
  Forall (fun ev => isVectorizeOrStore ev = false) evs ->
  Forall (fun ev => isStoreEvent ev = false) evs.
Proof. intros H. eapply Forall_impl; [exact H|]. by intros []. Qed.

Lemma vectorize_aborts texts w :
  exists evs,
    (vectorizeWithVoyage env texts w).2 = logged w evs
    ∧ Forall isVectorizerEvent evs
    ∧ forall before batch after e,
        evs = before ++ PostEmbeddings batch :: after ->
        voyage env (trace w ++ before) batch = Rejected e ->
        (vectorizeWithVoyage env texts w).1 = Throw e ∧ after = [].
Proof.
  unfold vectorizeWithVoyage.
  by apply (vectorizeBatches_failure texts (length texts) 0 [] w ltac:(lia)).
Qed.

(** A source stage that made no embedding or store request and ended the
    run. *)
Lemma stopped_run_aborts {A} (r : option (Result A)) w w1 (evs1 : list (@Event Vec)) :
  trace w1 = trace w ++ evs1 ->
  Forall (fun ev => isVectorizeOrStore ev = false) evs1 ->
  abortsOnRejection env (r, w1) w.
Proof.
  intros Ht Hq before batch after e Heq _. exfalso. cbn [snd] in Heq.
  rewrite Ht in Heq. apply app_inv_head in Heq. subst evs1.
  rewrite Forall_app, Forall_cons in Hq. by destruct Hq as (_ & Hq & _).
Qed.

Section Tail.

Context {Entity : Type}.
Variable entityTable embeddingsTable : string.
Variable toRow : Entity -> EntityRow.
Variable naturalKey : Entity -> jsstring.

(** The vectorize-then-store stages, after a source stage that made no
    embedding or store request. *)
Lemma vectorize_then_store_aborts fuel (entities : list Entity) texts w w1
    (evs1 : list (@Event Vec)) :
  trace w1 = trace w ++ evs1 ->
  Forall (fun ev => isVectorizeOrStore ev = false) evs1 ->
  abortsOnRejection env
    (andThen (vectorizeWithVoyage env texts)
       (fun vectors =>
          storeInSupabase env entityTable embeddingsTable toRow naturalKey fuel
            entities vectors) w1)
    w.
Proof.
  intros Ht Hq. unfold andThen.
  destruct (vectorize_aborts texts w1) as (evs2 & Hw2 & Hev2 & Hfail).
  destruct (vectorizeWithVoyage env texts w1) as [r2 w2]. cbn [fst snd] in Hw2, Hfail.
  subst w2. destruct r2 as [vectors|e2].
  - destruct (storeInSupabase_events entityTable embeddingsTable toRow naturalKey fuel
                entities vectors (logged w1 evs2)) as (evs3 & Hw3 & Hev3).
    destruct (storeInSupabase env entityTable embeddingsTable toRow naturalKey fuel
                entities vectors (logged w1 evs2)) as [r3 w3].
    cbn [snd] in Hw3. subst w3. rewrite logged_logged.
    intros before batch after e Heq Hrej. exfalso. cbn [snd trace logged] in Heq.
    rewrite Ht, <- app_assoc in Heq. apply app_inv_head in Heq.
    apply app_eq_middle in Heq as [(a' & -> & _)|(b' & -> & Heq)].
    { rewrite Forall_app, Forall_cons in Hq. by destruct Hq as (_ & Hq & _). }
    apply app_eq_middle in Heq as [(a' & -> & _)|(b'' & _ & ->)].
    + destruct (Hfail b' batch a' e eq_refl) as [Hthrow _]; [|done].
      by rewrite Ht, <- app_assoc.
    + rewrite Forall_app, Forall_cons in Hev3. by destruct Hev3 as (_ & Hev3 & _).
  - intros before batch after e Heq Hrej. cbn [fst snd trace logged] in *.
    rewrite Ht, <- app_assoc in Heq. apply app_inv_head in Heq.
    apply app_eq_middle in Heq as [(a' & -> & _)|(b' & -> & ->)].
    { exfalso. rewrite Forall_app, Forall_cons in Hq. by destruct Hq as (_ & Hq & _). }
    destruct (Hfail b' batch after e eq_refl) as [Hthrow ->].
    { by rewrite Ht, <- app_assoc. }
    split; [by injection Hthrow as ->|]. split; [done|].
    rewrite <- app_assoc. apply Forall_app. split; [by apply quiet_events_not_store|].
    by apply vectorizer_events_not_store.
Qed.

End Tail.

Lemma companyPipeline_aborts fuel w :
  abortsOnRejection env (companyPipeline env fuel w) w.
Proof.
  unfold companyPipeline. destruct (missingEnvironment env).
  { apply (stopped_run_aborts _ w w []); [by rewrite app_nil_r|constructor]. }
  unfold andThen at 1.
  destruct (fetchCompaniesFromAPI_run 500 w) as (k & evs1 & Ht & Hq & _).
  destruct (fetchCompaniesFromAPI env 500 w) as [r1 w1]. cbn [snd] in Ht.
  destruct r1 as [companies|e1]; [|by apply (stopped_run_aborts _ w w1 evs1)].
  destruct (decide (length companies = 0)); [by apply (stopped_run_aborts _ w w1 evs1)|].
  by apply (vectorize_then_store_aborts _ _ _ _ fuel companies _ w w1 evs1).
Qed.

Lemma investorPipeline_aborts fuel w :
  abortsOnRejection env (investorPipeline env fuel w) w.
Proof.
  unfold investorPipeline, loadInvestorsFromJSON. destruct (missingEnvironment env).
  { apply (stopped_run_aborts _ w w []); [by rewrite app_nil_r|constructor]. }
  unfold andThen at 1. destruct (investorsJson env) as [rawInvestors|e]; run.
  - destruct (decide (length rawInvestors = 0)).
    { apply (stopped_run_aborts _ w w []); [by rewrite app_nil_r|constructor]. }
    apply (vectorize_then_store_aborts _ _ _ _ fuel _ _ w w []);
      [by rewrite app_nil_r|constructor].
  - apply (stopped_run_aborts _ w w []); [by rewrite app_nil_r|constructor].
Qed.

Lemma runMain_aborts pipeline w before batch after e :
  abortsOnRejection env (pipeline w) w ->
  trace (runMain pipeline w).2 = trace w ++ before ++ PostEmbeddings batch :: after ->
  voyage env (trace w ++ before) batch = Rejected e ->
  (runMain pipeline w).1 = Some 1 ∧ after = []
  ∧ Forall (fun ev => isStoreEvent ev = false) (before ++ PostEmbeddings batch :: after).
Proof.
  intros Hab Ht Hrej. unfold runMain in *.
  destruct (pipeline w) as [r w'] eqn:E.
  assert (Ht' : trace w' = trace w ++ before ++ PostEmbeddings batch :: after)
    by (by destruct r as [[|]|]).
  destruct (Hab before batch after e Ht' Hrej) as (Hr & Ha & Hs).
  cbn [fst] in Hr. subst r. by repeat split.
Qed.

(** C9.  If an embedding request is rejected, [vectorizeWithVoyage] throws
    that error and the rejected request is the last thing it does: no
    retry, no further chunk, no vectors returned.  Either pipeline then
    ends with exit code 1, and its whole trace holds no store request: no
    vector is persisted. *)
Theorem rejected_embedding_request_aborts_the_run :
  (forall texts w before batch after e,
     trace (vectorizeWithVoyage env texts w).2
     = trace w ++ before ++ PostEmbeddings batch :: after ->
     voyage env (trace w ++ before) batch = Rejected e ->
     (vectorizeWithVoyage env texts w).1 = Throw e ∧ after = [])
  ∧ (forall fuel w before batch after e,
       trace (companyMain env fuel w).2
       = trace w ++ before ++ PostEmbeddings batch :: after ->
       voyage env (trace w ++ before) batch = Rejected e ->
       (companyMain env fuel w).1 = Some 1 ∧ after = []
       ∧ Forall (fun ev => isStoreEvent ev = false)
                (before ++ PostEmbeddings batch :: after))
  ∧ (forall fuel w before batch after e,
       trace (investorMain env fuel w).2
       = trace w ++ before ++ PostEmbeddings batch :: after ->
       voyage env (trace w ++ before) batch = Rejected e ->
       (investorMain env fuel w).1 = Some 1 ∧ after = []
       ∧ Forall (fun ev => isStoreEvent ev = false)
                (before ++ PostEmbeddings batch :: after)).
Proof.
  split; [|split].
  - intros texts w before batch after e Ht Hrej.
    destruct (vectorize_aborts texts w) as (evs & Hw & _ & Hfail).
    rewrite Hw in Ht. cbn [trace logged] in Ht. apply app_inv_head in Ht.
    by apply (Hfail before batch after e).
  - intros fuel w before batch after e. apply runMain_aborts, companyPipeline_aborts.
  - intros fuel w before batch after e. apply runMain_aborts, investorPipeline_aborts.
Qed.

(** C10.  With the required configuration present, a registry fetch that
    yields no company makes the company script's [main] return at once:
    exit code 0, and the trace is the fetch's own, which holds no embedding
    or store request.  A roster of zero investors makes the investor
    script's [main] return with exit code 0 and an untouched trace. *)
Theorem empty_source_exits_successfully :
  (forall fuel w w1,
     missingEnvironment env = false ->
     fetchCompaniesFromAPI env 500 w = (Ok [], w1) ->
     companyMain env fuel w = (Some 0, w1)
     ∧ exists evs, trace w1 = trace w ++ evs
                   ∧ Forall (fun ev => isVectorizeOrStore ev = false) evs)
  ∧ (forall fuel w,
       missingEnvironment env = false ->
       investorsJson env = Resolved [] ->
       investorMain env fuel w = (Some 0, w)).
Proof.
  split.
  - intros fuel w w1 Henv Hfetch. split.
    + unfold companyMain, runMain, companyPipeline, andThen. rewrite Henv, Hfetch.
      by cbn.
    + destruct (fetchCompaniesFromAPI_run 500 w) as (k & evs & Ht & Hq & _).
      rewrite Hfetch in Ht. by exists evs.
  - intros fuel w Henv Hjson.
    unfold investorMain, runMain, investorPipeline, loadInvestorsFromJSON, andThen.
    rewrite Henv, Hjson. by run.
Qed.

End Properties.

(** * Further properties of the scripts *)

Section MoreProperties.

Context {Vec : Type}.
Variable env : @Env Vec.

Implicit Types (w : @World Vec) (text : jsstring).

(** ** Configuration and fatal fetch errors *)

(** X1.  When a required environment variable is missing, either [main]
    ends with exit code 1 at once: the state is untouched, so no request of
    any kind has been made. *)
Theorem missing_configuration_is_fatal_before_any_request fuel w :
  missingEnvironment env = true ->
  companyMain env fuel w = (Some 1, w) ∧ investorMain env fuel w = (Some 1, w).
Proof.
  intros H. unfold companyMain, investorMain, runMain, companyPipeline, investorPipeline.
  by rewrite H.
Qed.


(** ** Translator *)

Lemma inherited_names_are_not_translated text :
  isInherited text = true -> translateFinnishToEnglishBasic text = PrototypeMember text.
Proof.
  unfold isInherited. intros H%bool_decide_eq_true.
  unfold objectPrototypeMembers in H.
  repeat (apply elem_of_cons in H as [->|H]; [vm_compute; reflexivity|]).
  by apply elem_of_nil in H.
Qed.

Lemma fallback_text text translation :
  translateFinnishToEnglishBasic text = Text translation ->
  translation ≠ [] ∨ text = [].
Proof.
  rewrite translateFinnishToEnglishBasic_lookup.
  destruct (translations !! text) as [v|] eqn:E.
  - intros [= <-]. left. by apply translations_values_nonempty in E.
  - destruct (isInherited text); [done|]. intros [= <-]. destruct text; auto.
Qed.

(** X3.  A non-empty text never becomes empty: [translateToEnglish] makes
    at most one request, which is for that exact text, and a text it
    returns for a non-empty input is non-empty, whatever the service
    answers.  It throws in one case only: its request was rejected and the
    text names a member of [Object.prototype], which the fallback lookup
    finds in place of a translation. *)
Theorem translation_of_a_label_is_never_empty text w :
  text ≠ [] ->
  exists evs,
    (translateToEnglish env text w).2 = logged w evs
    ∧ (evs = [] ∨ evs = [PostTranslate text])
    ∧ match (translateToEnglish env text w).1 with
      | Ok t => t ≠ []
      | Throw e =>
          e = substringTypeError ∧ isInherited text = true
          ∧ evs = [PostTranslate text]
          ∧ exists e', deepl env (trace w) text = Rejected e'
      end.
Proof.
  intros Hne. destruct text as [|c r]; [done|]. unfold translateToEnglish.
  destruct (negb _ && _).
  { exists []. rewrite logged_nil. by repeat split; [left|]. }
  run. destruct (deepl env (trace w) (c :: r)) as [t|e]; run.
  - exists [PostTranslate (c :: r)].
    split; [done|]. split; [by right|]. by destruct t as [[|? ?]|].
  - exists [PostTranslate (c :: r)].
    destruct (translateFinnishToEnglishBasic (c :: r)) as [t|member] eqn:E; run.
    + split; [done|]. split; [by right|].
      by destruct (fallback_text _ _ E).
    + split; [done|]. split; [by right|]. split; [done|].
      split; [|split; [done|by exists e]].
      rewrite translateFinnishToEnglishBasic_lookup in E.
      destruct (translations !! (c :: r)); [done|].
      by destruct (isInherited (c :: r)).
Qed.

(** X4.  When the service answers, the translation is its text; an answer
    with an empty or missing text leaves the label as it was.  This holds
    for every text that is not passed through. *)
Theorem translation_service_answer_is_used text w answer :
  text ≠ [] -> ¬ (noDiacritics text ∧ plainAscii text) ->
  deepl env (trace w) text = Resolved answer ->
  translateToEnglish env text w
  = (Ok (match answer with Some (c :: r) => c :: r | _ => text end),
     logged w [PostTranslate text]).
Proof.
  intros Hne Hnot Hok. destruct text as [|c r]; [done|].
  unfold translateToEnglish.
  destruct (negb (finnishChars_test (c :: r)) && englishPattern_test (c :: r)) eqn:G.
  - apply andb_true_iff in G as [G1%negb_true_iff G2]. exfalso. apply Hnot.
    split; [by apply finnishChars_test_noDiacritics|by apply englishPattern_test_plainAscii].
  - run. by rewrite Hok.
Qed.

(** X5.  The fallback dictionary is idempotent on texts: no English entry
    is itself a key or the name of an inherited member, so looking up what
    a lookup returned gives the same text again.  A text without an entry
    is returned as it is, unless it names a member of [Object.prototype]:
    then the lookup returns that member, which is not a text. *)
Theorem fallback_dictionary_is_idempotent text :
  (forall translation,
     translateFinnishToEnglishBasic text = Text translation ->
     translateFinnishToEnglishBasic translation = Text translation)
  ∧ (translations !! text = None -> isInherited text = false ->
     translateFinnishToEnglishBasic text = Text text)
  ∧ (isInherited text = true ->
     translateFinnishToEnglishBasic text = PrototypeMember text).
Proof.
  split; [|split].
  - intros translation. rewrite translateFinnishToEnglishBasic_lookup.
    destruct (translations !! text) as [v|] eqn:E.
    + intros [= <-]. unfold translations in E. apply elem_of_list_to_map_2 in E.
      repeat (apply elem_of_cons in E as [E|E];
              [injection E as -> ->; vm_compute; reflexivity|]).
      by apply elem_of_nil in E.
    + destruct (isInherited text) eqn:Hi; [done|]. intros [= <-].
      by rewrite translateFinnishToEnglishBasic_lookup, E, Hi.
  - intros E Hi. by rewrite translateFinnishToEnglishBasic_lookup, E, Hi.
  - apply inherited_names_are_not_translated.
Qed.

(** ** Batch vectorizer: pacing *)

Lemma vectorizeBatches_trace texts d : forall j allVectors w,
  (forall h batch, exists items, voyage env h batch = Resolved items) ->
  batchCount (length texts) - j ≤ d ->
  exists vectors,
    vectorizeBatches env texts (100 * j) allVectors w
    = (Ok vectors,
       logged w
         (flat_map (fun j => PostEmbeddings (chunk texts j)
                             :: (if decide (S j < batchCount (length texts))
                                 then [Sleep 60000%Z] else []))
                   (seq j (batchCount (length texts) - j)))).
Proof.
  intros j acc w Hok. revert j acc w.
  induction d as [|d IH]; intros j acc w Hd;
    rewrite vectorizeBatches_equation_1;
    destruct (decide (100 * j < length texts)) as [Hlt|Hge].
  2, 4: (apply batchCount_done in Hge;
         replace (batchCount (length texts) - j) with 0 by lia;
         cbn [seq flat_map]; exists acc; by rewrite logged_nil).
  - apply batchCount_more in Hlt. lia.
  - unfold slice, batchSize.
    replace (100 * j + 100 - 100 * j) with 100 by lia.
    destruct (Hok (trace w) (take 100 (drop (100 * j) texts))) as (items & Hv).
    run. rewrite Hv.
    replace (100 * j + 100) with (100 * S j) by lia.
    apply batchCount_more in Hlt as Hj.
    replace (batchCount (length texts) - j)
      with (S (batchCount (length texts) - S j)) by lia.
    cbn [seq flat_map]. fold (chunk texts j).
    destruct (decide (100 * S j < length texts)) as [Hmore|Hlast]; run.
    + apply batchCount_more in Hmore.
      destruct (decide (S j < batchCount (length texts))); [|lia].
      edestruct IH as (vectors & ->); [lia|].
      exists vectors. by rewrite !logged_logged.
    + apply batchCount_done in Hlast.
      destruct (decide (S j < batchCount (length texts))); [lia|].
      edestruct IH as (vectors & ->); [lia|].
      exists vectors. by rewrite !logged_logged.
Qed.

Lemma vectorize_paced texts w :
  (forall h batch, exists items, voyage env h batch = Resolved items) ->
  exists vectors,
    vectorizeWithVoyage env texts w = (Ok vectors, logged w (vectorizerTrace texts)).
Proof.
  intros Hok. unfold vectorizeWithVoyage, vectorizerTrace.
  destruct (vectorizeBatches_trace texts (batchCount (length texts)) 0 [] w Hok
              ltac:(lia)) as (vectors & H).
  rewrite Nat.sub_0_r in H. by exists vectors.
Qed.

(** X6.  When no embedding request fails, the vectorizer's requests are
    paced: it adds to the trace one request per chunk of 100 texts, waits
    sixty seconds after each request but the last, and does nothing else;
    for an empty input it does nothing at all. *)
Theorem vectorizer_waits_between_batches texts w :
  (forall h batch, exists items, voyage env h batch = Resolved items) ->
  (exists vectors,
     vectorizeWithVoyage env texts w = (Ok vectors, logged w (vectorizerTrace texts)))
  ∧ (texts = [] -> vectorizeWithVoyage env texts w = (Ok [], w)).
Proof.
  intros Hok. split; [by apply vectorize_paced|].
  intros ->. unfold vectorizeWithVoyage. by rewrite vectorizeBatches_equation_1.
Qed.

(** ** Store writer: read-back map and rows *)

Lemma foldl_setPrimitive_other (records : list IdRecord) (k : jsstring) :
  forall m0 : gmap jsstring Z,
    k ∉ map natural_key records ->
    foldl (fun m record => setPrimitive m (natural_key record) (rowId record)) m0 records
      !! k
    = m0 !! k.
Proof.
  induction records as [|r rs IH]; intros m0 Hk; [done|].
  cbn [foldl]. cbn [map] in Hk. apply not_elem_of_cons in Hk as [Hne Hrs].
  rewrite IH by done. unfold setPrimitive.
  destruct (bool_decide (natural_key r = protoKey)); [done|].
  by rewrite lookup_insert_ne.
Qed.

(** X7.  In the map built from the read-back, a natural key that occurs in
    several records resolves to the surrogate id of the last of them.  The
    key [__proto__] is the exception: a record under it is never entered,
    and looking it up finds the inherited member. *)
Theorem read_back_map_keeps_last_record :
  (forall (before after : list IdRecord) (record : IdRecord),
     natural_key record ≠ protoKey ->
     natural_key record ∉ map natural_key after ->
     getMember (idsByNaturalKey (before ++ record :: after)) (natural_key record)
     = Own (rowId record))
  ∧ (forall records : list IdRecord,
       getMember (idsByNaturalKey records) protoKey = Inherited protoKey).
Proof.
  split.
  - intros before after record Hkey Hlast.
    unfold getMember, idsByNaturalKey. rewrite foldl_app. cbn [foldl].
    rewrite foldl_setPrimitive_other by done. unfold setPrimitive.
    destruct (bool_decide_reflect (natural_key record = protoKey)); [done|].
    by rewrite lookup_insert_eq.
  - intros records. unfold getMember.
    replace (idsByNaturalKey records !! protoKey) with (@None Z); [done|].
    symmetry. apply idsByNaturalKey_absent. by left.
Qed.

Section Rows.

Context {Entity : Type}.
Variable naturalKey : Entity -> jsstring.

(** X8.  The rows prepared for the embedding upsert never outnumber the
    entities, and each is the row of an entity, carrying what the id map
    gives for that entity's key, which is truthy, and the vector at the
    entity's index; but when the vector list is shorter than the entity
    list, an entity beyond its end whose key gives something truthy is
    still given a row, with an undefined vector. *)
Theorem embedding_rows_without_alignment (ids : gmap jsstring Z)
    (entities : list Entity) (vectors : list Vec) :
  length (embeddingData naturalKey ids entities vectors) ≤ length entities
  ∧ (forall row, row ∈ embeddingData naturalKey ids entities vectors ->
       truthyId (entity_id row) = true
       ∧ entity_id row ≠ Own 0%Z
       ∧ exists i entity,
           entities !! i = Some entity
           ∧ entity_id row = getMember ids (naturalKey entity)
           ∧ embeddings row = vectors !! i)
  ∧ (forall i entity,
       entities !! i = Some entity -> vectors !! i = None ->
       truthyId (getMember ids (naturalKey entity)) = true ->
       {| entity_id := getMember ids (naturalKey entity); embeddings := None |}
       ∈ embeddingData naturalKey ids entities vectors).
Proof.
  unfold embeddingData. split; [|split].
  - etrans; [apply List.filter_length_le|]. by rewrite length_imap.
  - intros row [Hin Hid]%list_elem_of_In%filter_In.
    split; [done|]. split.
    { intros Hz. by rewrite Hz in Hid. }
    apply list_elem_of_In, list_elem_of_lookup in Hin as [i Hi].
    rewrite list_lookup_imap in Hi.
    destruct (entities !! i) as [entity|] eqn:He; [|done].
    injection Hi as <-. by exists i, entity.
  - intros i entity He Hv Hid.
    apply list_elem_of_In, filter_In. split; [|done].
    apply list_elem_of_In, list_elem_of_lookup. exists i.
    rewrite list_lookup_imap, He. cbn. by rewrite Hv.
Qed.

End Rows.

(** ** Store writer: batches and errors *)

Lemma chunkCount_more (size n j : nat) :
  0 < size -> size * j < n -> j < (n + size - 1) / size.
Proof.
  intros Hs H. apply Nat.div_le_lower_bound; [lia|].
  rewrite Nat.mul_succ_r. lia.
Qed.

Lemma chunkCount_done (size n j : nat) :
  0 < size -> ¬ size * j < n -> (n + size - 1) / size ≤ j.
Proof.
  intros Hs H. assert ((n + size - 1) / size < S j); [|lia].
  apply Nat.Div0.div_lt_upper_bound. rewrite Nat.mul_succ_r. lia.
Qed.

Lemma chunkCount_le (size n : nat) : 0 < size -> (n + size - 1) / size ≤ n.
Proof.
  intros Hs. destruct n as [|n].
  - rewrite Nat.div_small; lia.
  - assert ((S n + size - 1) / size < S (S n)); [|lia].
    apply Nat.Div0.div_lt_upper_bound. nia.
Qed.

Lemma insertBatches_trace table (data : list (@EmbeddingRow Vec)) (size : nat) :
  BATCH_SIZE env = Z.of_nat size -> 0 < size ->
  (forall h rows, upsertEmbeddings env h table rows = None) ->
  forall fuel j w,
    (length data + size - 1) / size - j ≤ fuel ->
    insertBatches env table fuel data (Z.of_nat (size * j)) w
    = (Some (Ok tt),
       logged w (map (fun j => UpsertEmbeddings table (take size (drop (size * j) data)))
                     (seq j ((length data + size - 1) / size - j)))).
Proof.
  intros Hsize Hpos Hok.
  induction fuel as [|fuel IH]; intros j w Hd; cbn [insertBatches];
    destruct (decide (Z.of_nat (size * j) < Z.of_nat (length data))%Z) as [Hlt|Hge].
  2, 4: (assert (Hge' : ¬ size * j < length data) by lia;
         apply chunkCount_done in Hge'; [|done];
         replace ((length data + size - 1) / size - j) with 0 by lia;
         cbn [seq map]; by rewrite logged_nil).
  - assert (Hlt' : size * j < length data) by lia.
    apply chunkCount_more in Hlt'; [lia|done].
  - assert (Hlt' : size * j < length data) by lia.
    unfold andThen. run. rewrite Hok, Hsize, sliceZ_take_drop.
    replace (Z.of_nat (size * j) + Z.of_nat size)%Z with (Z.of_nat (size * S j)) by lia.
    apply chunkCount_more in Hlt' as Hj; [|done].
    replace ((length data + size - 1) / size - j)
      with (S ((length data + size - 1) / size - S j)) by lia.
    cbn [seq map]. rewrite IH by lia. by rewrite logged_logged.
Qed.

(** With a negative batch size the index only decreases: once it is
    negative every batch is empty, and the loop goes on for as long as
    nothing is refused. *)
Lemma insertBatches_below_zero table (data : list (@EmbeddingRow Vec)) :
  (BATCH_SIZE env < 0)%Z ->
  (forall h rows, upsertEmbeddings env h table rows = None) ->
  forall fuel i w,
    (i < 0)%Z ->
    insertBatches env table fuel data i w
    = (None, logged w (replicate fuel (UpsertEmbeddings table []))).
Proof.
  intros Hneg Hok.
  induction fuel as [|fuel IH]; intros i w Hi; cbn [insertBatches];
    destruct (decide (i < Z.of_nat (length data))%Z) as [Hlt|Hge]; try lia.
  - cbn [replicate]. by rewrite logged_nil.
  - unfold andThen. run. rewrite Hok, sliceZ_negative by done.
    rewrite IH by lia. by rewrite logged_logged.
Qed.

Section StoreRequests.

Context {Entity : Type}.
Variable entityTable embeddingsTable : string.
Variable toRow : Entity -> EntityRow.
Variable naturalKey : Entity -> jsstring.

Lemma storeInSupabase_accepted fuel
    (entities : list Entity) (vectors : list Vec) (records : list IdRecord) w :
  (0 < BATCH_SIZE env)%Z ->
  length entities ≤ fuel ->
  upsertEntities env (trace w) entityTable (map toRow entities) = None ->
  selectIds env (trace w ++ [UpsertEntities entityTable (map toRow entities)])
            entityTable (map naturalKey entities) = SelectData records ->
  (forall h rows, upsertEmbeddings env h embeddingsTable rows = None) ->
  storeInSupabase env entityTable embeddingsTable toRow naturalKey fuel entities vectors w
  = (Some (Ok tt),
     logged w
       ([UpsertEntities entityTable (map toRow entities);
         SelectIds entityTable (map naturalKey entities)]
        ++ map (UpsertEmbeddings embeddingsTable)
               (chunksOf (Z.to_nat (BATCH_SIZE env))
                  (embeddingData naturalKey (idsByNaturalKey records) entities vectors)))).
Proof.
  intros Hpos Hfuel Hup Hsel Hemb.
  unfold storeInSupabase, tryCatchPartial, andThen. run. rewrite Hup. run. rewrite Hsel.
  set (rows := embeddingData naturalKey (idsByNaturalKey records) entities vectors).
  set (size := Z.to_nat (BATCH_SIZE env)).
  assert (Hrows : length rows ≤ length entities).
  { unfold rows, embeddingData. etrans; [apply List.filter_length_le|].
    by rewrite length_imap. }
  pose proof (chunkCount_le size (length rows) ltac:(lia)) as Hcount.
  pose proof (insertBatches_trace embeddingsTable rows size ltac:(lia) ltac:(lia) Hemb
                fuel 0
                (logged (logged w [UpsertEntities entityTable (map toRow entities)])
                        [SelectIds entityTable (map naturalKey entities)])
                ltac:(lia)) as Hrun.
  rewrite Nat.mul_0_r, Nat.sub_0_r in Hrun. change (Z.of_nat 0) with 0%Z in Hrun.
  rewrite Hrun.
  rewrite !logged_logged. unfold chunksOf. by rewrite map_map.
Qed.

(** X9.  With a positive batch size and every store call accepted, the
    writer ends after at most one loop iteration per entity, having made
    exactly these requests, in order: one entity upsert with one row per
    entity, one read-back for the natural keys of all entities, and one
    embedding upsert per consecutive chunk of [BATCH_SIZE] prepared rows
    (none when no row was prepared). *)
Theorem store_requests_when_accepted fuel
    (entities : list Entity) (vectors : list Vec) (records : list IdRecord) w :
  (0 < BATCH_SIZE env)%Z ->
  length entities ≤ fuel ->
  upsertEntities env (trace w) entityTable (map toRow entities) = None ->
  selectIds env (trace w ++ [UpsertEntities entityTable (map toRow entities)])
            entityTable (map naturalKey entities) = SelectData records ->
  (forall h rows, upsertEmbeddings env h embeddingsTable rows = None) ->
  storeInSupabase env entityTable embeddingsTable toRow naturalKey fuel entities vectors w
  = (Some (Ok tt),
     logged w
       ([UpsertEntities entityTable (map toRow entities);
         SelectIds entityTable (map naturalKey entities)]
        ++ map (UpsertEmbeddings embeddingsTable)
               (chunksOf (Z.to_nat (BATCH_SIZE env))
                  (embeddingData naturalKey (idsByNaturalKey records) entities vectors)))).
Proof. apply storeInSupabase_accepted. Qed.

(** X10.  Store errors are fatal and nothing is attempted after one, while
    what was written before stays written: a refused entity upsert ends the
    writer after that single request; a failed read-back ends it after the
    entity upsert and the read-back, with no embedding written; and a
    refused embedding batch ends it with that error as its last request,
    the batches before it having been sent. *)
Theorem store_errors_are_fatal fuel (entities : list Entity) (vectors : list Vec) w :
  (forall e,
     upsertEntities env (trace w) entityTable (map toRow entities) = Some e ->
     storeInSupabase env entityTable embeddingsTable toRow naturalKey fuel
       entities vectors w
     = (Some (Throw e), logged w [UpsertEntities entityTable (map toRow entities)]))
  ∧ (forall e,
       upsertEntities env (trace w) entityTable (map toRow entities) = None ->
       selectIds env (trace w ++ [UpsertEntities entityTable (map toRow entities)])
                 entityTable (map naturalKey entities) = SelectError e ->
       storeInSupabase env entityTable embeddingsTable toRow naturalKey fuel
         entities vectors w
       = (Some (Throw e), logged w [UpsertEntities entityTable (map toRow entities);
                                    SelectIds entityTable (map naturalKey entities)]))
  ∧ (forall before rows after e,
       trace (storeInSupabase env entityTable embeddingsTable toRow naturalKey fuel
                entities vectors w).2
       = trace w ++ before ++ UpsertEmbeddings embeddingsTable rows :: after ->
       upsertEmbeddings env (trace w ++ before) embeddingsTable rows = Some e ->
       (storeInSupabase env entityTable embeddingsTable toRow naturalKey fuel
          entities vectors w).1 = Some (Throw e)
       ∧ after = []).
Proof.
  split; [|split].
  - intros e Hup. unfold storeInSupabase, tryCatchPartial, andThen, finished. run.
    rewrite Hup. by run.
  - intros e Hup Hsel. unfold storeInSupabase, tryCatchPartial, andThen, finished. run.
    rewrite Hup. run. rewrite Hsel. run. by rewrite logged_logged.
  - intros before rows after e Heq Hrej.
    unfold storeInSupabase, tryCatchPartial, andThen, finished in *. run.
    destruct (upsertEntities env (trace w) entityTable (map toRow entities)); run.
    { apply app_inv_head in Heq. destruct before as [|? [|? ?]]; discriminate. }
    destruct (selectIds _ _ _ _) as [records|e1]; run.
    2: { rewrite <- app_assoc in Heq. apply app_inv_head in Heq.
         destruct before as [|? [|? [|? ?]]]; discriminate. }
    match goal with
    | _ : context [insertBatches env ?t fuel ?d 0%Z ?w0] |- _ =>
        destruct (insertBatches_log env t d fuel 0%Z w0) as (evs & Hw & _ & Hfail);
        destruct (insertBatches env t fuel d 0%Z w0) as [r w1]
    end.
    cbn [fst snd] in Hw, Hfail. subst w1.
    assert (Ht : [UpsertEntities entityTable (map toRow entities);
                  SelectIds entityTable (map naturalKey entities)] ++ evs
                 = before ++ UpsertEmbeddings embeddingsTable rows :: after).
    { destruct r as [[|]|]; run; cbn [fst snd trace logged] in Heq;
        rewrite <- !app_assoc in Heq; by apply app_inv_head in Heq. }
    destruct before as [|x [|y before]]; try discriminate.
    injection Ht as <- <- Ht.
    destruct (Hfail before rows after e Ht) as [-> ->].
    { cbn [trace logged]. rewrite <- !app_assoc. exact Hrej. }
    by run.
Qed.

(** X21.  For equal-length lists, a positive batch size and accepted store
    calls, the writer returns normally and the embedding rows it writes
    are, in order, what the id map gives for entity [i]'s natural key with
    vector [i], for the entities for which that is truthy.  An entity whose
    key is absent from the read-back contributes no row, unless the key
    names a member of [Object.prototype]: then its row carries that
    member. *)
Theorem store_pairs_each_id_with_its_vector fuel
    (entities : list Entity) (vectors : list Vec) (records : list IdRecord) w :
  length entities = length vectors ->
  (0 < BATCH_SIZE env)%Z ->
  length entities ≤ fuel ->
  upsertEntities env (trace w) entityTable (map toRow entities) = None ->
  selectIds env (trace w ++ [UpsertEntities entityTable (map toRow entities)])
            entityTable (map naturalKey entities) = SelectData records ->
  (forall h rows, upsertEmbeddings env h embeddingsTable rows = None) ->
  exists evs,
    storeInSupabase env entityTable embeddingsTable toRow naturalKey fuel entities vectors w
    = (Some (Ok tt), logged w evs)
    ∧ embeddingRowsWritten evs
      = alignedRows (idsByNaturalKey records) naturalKey entities vectors
    ∧ (forall row, row ∈ embeddingRowsWritten evs ->
         exists i entity vector,
           entities !! i = Some entity ∧ vectors !! i = Some vector
           ∧ row = {| entity_id := getMember (idsByNaturalKey records) (naturalKey entity);
                      embeddings := Some vector |}
           ∧ truthyId (entity_id row) = true)
    ∧ (forall (entity : Entity) (vector : Vec),
         naturalKey entity ∉ map natural_key records ->
         pairedRow (idsByNaturalKey records) naturalKey (entity, vector)
         = if isInherited (naturalKey entity)
           then Some {| entity_id := Inherited (naturalKey entity);
                        embeddings := Some vector |}
           else None).
Proof.
  intros Hlen Hpos Hfuel Hup Hsel Hemb.
  unfold storeInSupabase, tryCatchPartial, andThen. run. rewrite Hup. run. rewrite Hsel.
  rewrite (embeddingData_aligned _ _ _ _ Hlen).
  set (rows := alignedRows (idsByNaturalKey records) naturalKey entities vectors).
  assert (Hrows : length rows ≤ length entities).
  { unfold rows. rewrite <- (embeddingData_aligned _ _ _ _ Hlen).
    unfold embeddingData. etrans; [apply List.filter_length_le|]. by rewrite length_imap. }
  destruct (insertBatches_run env embeddingsTable rows (Z.to_nat (BATCH_SIZE env))
              ltac:(lia) ltac:(lia) Hemb fuel 0
              (logged (logged w [UpsertEntities entityTable (map toRow entities)])
                      [SelectIds entityTable (map naturalKey entities)])
              ltac:(lia)) as (evs & Hrun & Hwritten).
  change (Z.of_nat 0) with 0%Z in Hrun. rewrite Hrun.
  rewrite !logged_logged. rewrite drop_0 in Hwritten.
  exists ([UpsertEntities entityTable (map toRow entities)]
          ++ [SelectIds entityTable (map naturalKey entities)] ++ evs).
  split; [reflexivity|].
  assert (Hall :
    embeddingRowsWritten
      ([UpsertEntities entityTable (map toRow entities)]
       ++ [SelectIds entityTable (map naturalKey entities)] ++ evs) = rows).
  { exact Hwritten. }
  split; [exact Hall|]. split.
  - rewrite Hall. unfold rows, alignedRows.
    intros row ([entity vector] & Hin & Hrow)%list_elem_of_omap.
    apply list_elem_of_lookup in Hin as [i Hi].
    apply lookup_zip_with_Some in Hi as (x & y & [= -> ->] & Hx & Hy).
    unfold pairedRow in Hrow. cbn [fst snd] in Hrow.
    destruct (truthyId (getMember (idsByNaturalKey records) (naturalKey x))) eqn:Hid;
      [|done].
    injection Hrow as <-. by exists i, x, y.
  - intros entity vector Habsent. unfold pairedRow, getMember. cbn [fst snd].
    replace (idsByNaturalKey records !! naturalKey entity) with (@None Z).
    2: { symmetry. apply idsByNaturalKey_absent. by right. }
    by destruct (isInherited (naturalKey entity)).
Qed.

(** X22.  A negative [BATCH_SIZE] is taken as it is, and the store loop
    then never ends: when there is a row to write and nothing is refused,
    the writer is still running after any number of iterations, having
    sent the rows but the last [-BATCH_SIZE] of them first and an empty
    batch in every iteration after that. *)
Theorem negative_batch_size_never_ends fuel
    (entities : list Entity) (vectors : list Vec) (records : list IdRecord) w :
  (BATCH_SIZE env < 0)%Z ->
  upsertEntities env (trace w) entityTable (map toRow entities) = None ->
  selectIds env (trace w ++ [UpsertEntities entityTable (map toRow entities)])
            entityTable (map naturalKey entities) = SelectData records ->
  (forall h rows, upsertEmbeddings env h embeddingsTable rows = None) ->
  embeddingData naturalKey (idsByNaturalKey records) entities vectors ≠ [] ->
  storeInSupabase env entityTable embeddingsTable toRow naturalKey fuel entities vectors w
  = (None,
     logged w
       ([UpsertEntities entityTable (map toRow entities);
         SelectIds entityTable (map naturalKey entities)]
        ++ endlessUpserts embeddingsTable (BATCH_SIZE env)
             (embeddingData naturalKey (idsByNaturalKey records) entities vectors) fuel)).
Proof.
  intros Hneg Hup Hsel Hemb Hrows.
  unfold storeInSupabase, tryCatchPartial, andThen. run. rewrite Hup. run. rewrite Hsel.
  set (rows := embeddingData naturalKey (idsByNaturalKey records) entities vectors) in *.
  assert (Hlen : 0 < length rows) by (destruct rows; [done|simpl; lia]).
  destruct fuel as [|fuel]; cbn [insertBatches endlessUpserts];
    destruct (decide (0 < Z.of_nat (length rows))%Z) as [_|?]; try lia.
  { by rewrite !logged_logged. }
  unfold andThen. run. rewrite Hemb.
  rewrite (insertBatches_below_zero embeddingsTable rows Hneg Hemb) by lia.
  rewrite !logged_logged. by rewrite sliceZ_all_but_last.
Qed.

End StoreRequests.

(** ** Registry adapter: order of requests *)

Lemma fetchPages_trace maxResults d : forall n w,
  50 - n ≤ d -> n < 50 ->
  length (accumulated env n) < maxResults ->
  exists k,
    S n ≤ k ∧ k ≤ 50
    ∧ (fetchPages env maxResults (S n) (accumulated env n) w).2
      = logged w (flat_map (fun page => GetCompanies page
                                        :: (if decide (page < k) then [Sleep 200%Z] else []))
                           (seq (S n) (k - n)))
    ∧ forall e, (fetchPages env maxResults (S n) (accumulated env n) w).1 = Throw e ->
                prh env k = Rejected e.
Proof.
  induction d as [|d IH]; intros n w Hd Hn Hacc; [lia|].
  rewrite fetchPages_equation_1.
  destruct (decide (length (accumulated env n) < maxResults)) as [_|]; [|lia].
  assert (Hone : forall r : Result (list RawCompany),
    (forall e, r = Throw e -> prh env (S n) = Rejected e) ->
    exists k, S n ≤ k ∧ k ≤ 50
      ∧ (r, logged w [GetCompanies (S n)]).2
        = logged w (flat_map (fun page => GetCompanies page
                                :: (if decide (page < k) then [Sleep 200%Z] else []))
                             (seq (S n) (k - n)))
      ∧ forall e, (r, logged w [GetCompanies (S n)]).1 = Throw e ->
                  prh env k = Rejected e).
  { intros r Hr. exists (S n). split; [lia|]. split; [lia|].
    replace (S n - n) with 1 by lia. cbn [seq flat_map].
    destruct (decide (S n < S n)); [lia|]. done. }
  run. destruct (prh env (S n)) as [data|e] eqn:Hp;
    [|apply Hone; by intros ? [= ->]].
  assert (Hrec : pageRecords env (S n) = pageDataOf data)
    by (unfold pageRecords; by rewrite Hp).
  destruct (decide (length (pageDataOf data) = 0)); [by apply Hone|].
  destruct (decide (maxResults ≤ _)) as [Hm|Hm]; [by apply Hone|].
  destruct (decide (length (pageDataOf data) < resultsPerPage)); [by apply Hone|].
  destruct (decide (50 < S n + 1)); [by apply Hone|].
  replace (S n + 1) with (S (S n)) by lia.
  rewrite <- Hrec, <- accumulated_S.
  assert (Hacc' : length (accumulated env (S n)) < maxResults).
  { rewrite accumulated_S, Hrec. lia. }
  run.
  destruct (IH (S n) (logged (logged w [GetCompanies (S n)]) [Sleep 200%Z])
              ltac:(lia) ltac:(lia) Hacc') as (k & Hk1 & Hk2 & Hw & Hthrow).
  exists k. split; [lia|]. split; [lia|]. split; [|exact Hthrow].
  rewrite Hw, !logged_logged.
  replace (k - n) with (S (k - S n)) by lia. cbn [seq flat_map].
  destruct (decide (S n < k)); [|lia]. done.
Qed.




Lemma fetchCompaniesFromAPI_unfold maxResults w classifications w1 r2 w2 :
  fetchIndustryClassifications env w = (Ok classifications, w1) ->
  fetchPages env maxResults 1 [] w1 = (r2, w2) ->
  fetchCompaniesFromAPI env maxResults w
  = match r2 with
    | Throw e => (Throw e, w2)
    | Ok allFetched =>
        if decide (length allFetched = 0) then (Ok [], w2)
        else forPush (processCompany env classifications) (take maxResults allFetched) w2
    end.
Proof.
  intros H1 H2. unfold fetchCompaniesFromAPI. run. rewrite H1, H2.
  destruct r2 as [allFetched|e]; [|done].
  destruct (decide (length allFetched = 0)); [done|].
  unfold slice. rewrite Nat.sub_0_r, drop_0.
  by destruct (forPush _ _ _) as [[?|?] ?].
Qed.

Lemma fetchPages_none w : fetchPages env 0 1 [] w = (Ok [], w).
Proof. by rewrite fetchPages_equation_1. Qed.



(** ** Registry adapter: what the returned companies carry *)

Lemma orElse_nonempty (s : option jsstring) (d : jsstring) : d ≠ [] -> orElse s d ≠ [].
Proof. intros Hd. by destruct s as [[|? ?]|]. Qed.

Lemma extractName_nonempty (raw : RawCompany) : extractName raw ≠ [].
Proof.
  assert (Hu : js "Unknown" ≠ []) by (vm_compute; discriminate).
  unfold extractName. destruct (names raw) as [[|first rest]|]; try done.
  by apply orElse_nonempty.
Qed.

Lemma valid_company_has_code_and_date (raw : RawCompany) :
  isValidCompany env raw = true ->
  (exists code, code ≠ [] ∧ businessLineType raw = Some code)
  ∧ (exists date, date ≠ [] ∧ extractRegistrationDate raw = Some date).
Proof.
  intros (y & Hy & Hge & Hcode)%isValidCompany_spec. split.
  - destruct (businessLineType raw) as [[|c r]|]; try done. by exists (c :: r).
  - unfold registrationYear in Hy. unfold extractRegistrationDate.
    destruct (orOpt (nestedRegistrationDate raw) (registrationDate raw)) as [[|c r]|];
      try (injection Hy as <-; lia).
    by exists (c :: r).
Qed.

Lemma Forall2_transfer {A B} (R : A -> B -> Prop) (P : A -> Prop) (Q : B -> Prop)
    (l : list A) (k : list B) :
  (forall x y, P x -> R x y -> Q y) -> Forall2 R l k -> Forall P l -> Forall Q k.
Proof.
  intros H HR. induction HR as [|x y l k Hxy _ IH]; intros HP; [constructor|].
  apply Forall_cons in HP as [Hx Hl]. constructor; [by eapply H|by apply IH].
Qed.

Lemma accumulated_valid n :
  Forall (fun raw => isValidCompany env raw = true) (accumulated env n).
Proof.
  apply Forall_forall. intros raw Hin. rewrite accumulated_filter in Hin.
  apply list_elem_of_In, filter_In in Hin. tauto.
Qed.

(** X12.  Every company the registry fetch returns has a non-empty name,
    a non-empty industry code and a registration date; so its text for the
    embedding is built from the company's own name and date: neither the
    fallback to the outer name nor the [N/A] placeholder is ever used. *)
Theorem fetched_companies_are_complete maxResults w companies w' :
  fetchCompaniesFromAPI env maxResults w = (Ok companies, w') ->
  Forall (fun company =>
            companyName company ≠ []
            ∧ industryCode company ≠ []
            ∧ exists date,
                date ≠ []
                ∧ detailsRegistrationDate (details company) = Some date
                ∧ createCompanyText company
                  = js "Company: " ++ companyName company
                    ++ js ". Business ID: " ++ businessIdToString (companyBusinessId company)
                    ++ js ". Industry: " ++ orElse (categoryName (details company)) []
                    ++ js ". Description: " ++ detailsDescription (details company)
                    ++ js ". Address: " ++ detailsAddress (details company)
                    ++ js ". Registration Date: " ++ date ++ js ".")
         companies.
Proof.
  intros Hrun.
  destruct (fetchCompaniesFromAPI_run env maxResults w)
    as (k & evs & _ & _ & _ & _ & _ & _ & _ & Hres).
  rewrite Hrun in Hres. cbn [fst] in Hres.
  assert (Hn : Forall2 normalizes (take maxResults (accumulated env k)) companies).
  { destruct (prh env k).
    - by destruct Hres as [?|(cs & [= <-] & Hn)].
    - destruct (decide (k = 0)) as [->|]; [|done]. injection Hres as ->.
      change (accumulated env 0) with (@nil RawCompany). rewrite take_nil. constructor. }
  eapply Forall2_transfer; [|exact Hn|apply Forall_take, accumulated_valid].
  intros raw company Hvalid (Hid & Hname & Hcode & Hdname & _ & _ & Hdate).
  destruct (valid_company_has_code_and_date raw Hvalid)
    as [(code & Hc & Hblt) (date & Hd & Hreg)].
  pose proof (extractName_nonempty raw) as Hne.
  split; [by rewrite Hname|]. split.
  { rewrite Hcode, Hblt. by destruct code. }
  exists date. split; [done|]. split; [by rewrite Hdate|].
  unfold createCompanyText. rewrite Hdname, Hdate, Hreg, Hname.
  destruct (extractName raw) as [|n ns]; [done|]. by destruct date.
Qed.

(** ** Registry adapter: labels without the classification table *)

Lemma translationRequests_app (a b : list (@Event Vec)) :
  translationRequests (a ++ b) = translationRequests a ++ translationRequests b.
Proof. apply omap_app. Qed.

Lemma pages_are_not_translations (pages : list nat) (k : nat) :
  translationRequests
    (flat_map (fun page => GetCompanies page
                           :: (if decide (page < k) then [Sleep 200%Z : @Event Vec] else []))
              pages) = [].
Proof.
  induction pages as [|p ps IH]; [done|].
  cbn [flat_map]. rewrite translationRequests_app, IH.
  by destruct (decide (p < k)).
Qed.

Lemma processCompany_without_classifications (raw : RawCompany) w :
  isValidCompany env raw = true ->
  exists company,
    processCompany env ∅ raw w = (Ok company, w)
    ∧ categoryName (details company) = labelWithoutTable (industryCode company).
Proof.
  intros Hraw.
  destruct (valid_company_has_code_and_date raw Hraw) as [(code & Hc & Hblt) _].
  destruct code as [|c r]; [done|].
  unfold processCompany, resolveCategoryName, labelWithoutTable. rewrite Hblt.
  unfold lookupEntry. cbn [ownEntries replacedPrototype ClassificationTable_empty empty].
  rewrite lookup_empty.
  destruct (isInherited (c :: r)) eqn:Hi; cbn [truthyValue valueName valueIsFinnish];
    [rewrite andb_false_r|]; run;
    (eexists; split; [reflexivity|]); cbn [categoryName details industryCode orElse];
    by rewrite Hi.
Qed.

Lemma forPush_without_classifications (raws : list RawCompany) : forall w,
  Forall (fun raw => isValidCompany env raw = true) raws ->
  exists companies,
    forPush (processCompany env ∅) raws w = (Ok companies, w)
    ∧ Forall (fun company =>
                categoryName (details company) = labelWithoutTable (industryCode company))
             companies.
Proof.
  induction raws as [|raw raws IH]; intros w Hv.
  { exists []. split; [done|constructor]. }
  apply Forall_cons in Hv as [Hraw Hraws].
  destruct (IH w Hraws) as (cs & Hrun & Hcs).
  destruct (processCompany_without_classifications raw w Hraw) as (c & Hpc & Hlabel).
  exists (c :: cs). cbn [forPush]. run. rewrite Hpc, Hrun.
  split; [reflexivity|]. by constructor.
Qed.

(** X13.  When the classification request fails, the fetch still succeeds
    without asking any translation, and every company it returns is
    labelled ["Industry Code: <code>"] with its own industry code; unless
    the code names a member of [Object.prototype], which the lookup in the
    empty table finds: the label is then that member's name (["Object"]
    for [constructor], nothing for [__proto__]). *)
Theorem classification_failure_falls_back_to_code_labels
    maxResults w e companies w' :
  industryClassifications w = None ->
  statisticsFi env (trace w) = Rejected e ->
  fetchCompaniesFromAPI env maxResults w = (Ok companies, w') ->
  Forall (fun company =>
            categoryName (details company)
            = if isInherited (industryCode company)
              then memberName (industryCode company)
              else Some (js "Industry Code: " ++ industryCode company)) companies
  ∧ translationRequests (trace w') = translationRequests (trace w).
Proof.
  intros Hc Hrej Hrun.
  pose proof (fetch_rejected env w e Hc Hrej) as Hcls.
  set (w1 := logged w [GetClassifications]) in *.
  destruct (fetchPages env maxResults 1 [] w1) as [r2 w2] eqn:Hpages.
  rewrite (fetchCompaniesFromAPI_unfold maxResults w ∅ w1 r2 w2 Hcls Hpages) in Hrun.
  assert (Hshape :
    translationRequests (trace w2) = translationRequests (trace w)
    ∧ forall allFetched, r2 = Ok allFetched ->
        Forall (fun raw => isValidCompany env raw = true) allFetched).
  { destruct (decide (maxResults = 0)) as [->|Hpos].
    - rewrite fetchPages_none in Hpages. injection Hpages as <- <-.
      split; [unfold w1; cbn [trace logged];
              by rewrite translationRequests_app, app_nil_r|].
      intros ? [= <-]. constructor.
    - destruct (fetchPages_trace maxResults 50 0 w1 ltac:(lia) ltac:(lia))
        as (k & _ & _ & Hw & _); [cbn; lia|].
      destruct (fetchPages_run env maxResults 50 0 w1 ltac:(lia) ltac:(lia))
        as (k' & evs & _ & _ & _ & _ & _ & _ & _ & Hres); [cbn; lia|].
      change (accumulated env 0) with (@nil RawCompany) in Hw, Hres.
      rewrite Hpages in Hw, Hres. cbn [fst snd] in Hw, Hres. subst w2. split.
      + unfold w1. cbn [trace logged].
        rewrite !translationRequests_app, pages_are_not_translations.
        by rewrite !app_nil_r.
      + intros allFetched ->. destruct (prh env k'); [|done].
        injection Hres as ->. apply accumulated_valid. }
  destruct Hshape as [Ht Hvalid].
  destruct r2 as [allFetched|e2]; [|done].
  destruct (decide (length allFetched = 0)).
  { injection Hrun as <- <-. split; [constructor|done]. }
  destruct (forPush_without_classifications (take maxResults allFetched) w2)
    as (cs & Hfp & Hcs); [by apply Forall_take, Hvalid|].
  rewrite Hfp in Hrun. injection Hrun as <- <-. by split.
Qed.

(** ** Classification cache: what is loaded *)

Lemma cacheItem_loads (item : ClassificationItem) w table :
  industryClassifications w = Some table ->
  cacheItem (Some item) w
  = (Ok tt, {| industryClassifications := Some (loadItem table item); trace := trace w |}).
Proof.
  intros Hw. unfold cacheItem, loadItem.
  destruct (code item) as [[|c r]|]; run; rewrite ?Hw; try done;
    destruct w; cbn in *; by subst.
Qed.

Lemma forEach_cacheItem_loads (items : list ClassificationItem) : forall w table,
  industryClassifications w = Some table ->
  forEach cacheItem (map Some items) w
  = (Ok tt,
     {| industryClassifications := Some (foldl loadItem table items); trace := trace w |}).
Proof.
  induction items as [|item items IH]; intros w table Hw.
  { cbn [map forEach foldl]. run. destruct w. cbn in *. by subst. }
  cbn [map forEach foldl]. run. rewrite (cacheItem_loads item w table Hw).
  by rewrite (IH {| industryClassifications := Some (loadItem table item);
                    trace := trace w |} _ eq_refl).
Qed.

Lemma forEach_cacheItem_stops (items : list ClassificationItem)
    (rest : list (option ClassificationItem)) : forall w table,
  industryClassifications w = Some table ->
  exists e,
    forEach cacheItem (map Some items ++ None :: rest) w
    = (Throw e,
       {| industryClassifications := Some (foldl loadItem table items);
          trace := trace w |}).
Proof.
  induction items as [|item items IH]; intros w table Hw.
  { cbn [map app forEach foldl cacheItem]. run. eexists. destruct w. cbn in *. by subst. }
  cbn [map app forEach foldl]. run. rewrite (cacheItem_loads item w table Hw).
  by apply (IH {| industryClassifications := Some (loadItem table item);
                  trace := trace w |} _ eq_refl).
Qed.

Lemma loadItem_own (table : ClassificationTable) (item : ClassificationItem)
    (k : jsstring) :
  ownEntries (loadItem table item) !! k
  = if decide (code item = Some k ∧ k ≠ [] ∧ k ≠ protoKey)
    then Some (classificationEntry item)
    else ownEntries table !! k.
Proof.
  unfold loadItem, assignEntry. destruct (code item) as [[|c r]|] eqn:Hcode.
  - destruct (decide _) as [(Hk & Hne & _)|]; [|done]. congruence.
  - destruct (bool_decide_reflect (c :: r = protoKey)) as [Hp|Hp]; cbn [ownEntries].
    + destruct (decide _) as [(Hk & _ & Hnp)|]; [|done]. congruence.
    + destruct (decide _) as [(Hk & _ & _)|Hno].
      * injection Hk as <-. by rewrite lookup_insert_eq.
      * rewrite lookup_insert_ne; [done|]. intros <-. apply Hno. by repeat split.
  - by destruct (decide _) as [(Hk & _)|].
Qed.

Lemma loadItem_prototype (table : ClassificationTable) (item : ClassificationItem) :
  replacedPrototype (loadItem table item)
  = if decide (code item = Some protoKey)
    then Some (classificationEntry item)
    else replacedPrototype table.
Proof.
  unfold loadItem, assignEntry. destruct (code item) as [[|c r]|] eqn:Hcode.
  - by destruct (decide _).
  - destruct (bool_decide_reflect (c :: r = protoKey)) as [Hp|Hp];
      cbn [replacedPrototype]; destruct (decide _) as [Heq|Hne]; try done.
    + by rewrite Hp in Hne.
    + congruence.
  - by destruct (decide _).
Qed.

Lemma foldl_loadItem_own_other (items : list ClassificationItem) (k : jsstring) :
  forall table,
    k = [] ∨ k = protoKey ∨ Some k ∉ map code items ->
    ownEntries (foldl loadItem table items) !! k = ownEntries table !! k.
Proof.
  induction items as [|item items IH]; intros table Hk; [done|].
  cbn [foldl map] in *. rewrite IH.
  - rewrite loadItem_own. destruct (decide _) as [(Hc & Hne & Hnp)|]; [|done].
    destruct Hk as [?|[?|Hk]]; try done.
    apply not_elem_of_cons in Hk as [Hk _]. congruence.
  - destruct Hk as [?|[?|Hk]]; auto.
    apply not_elem_of_cons in Hk as [_ Hk]. auto.
Qed.

Lemma foldl_loadItem_prototype_other (items : list ClassificationItem) :
  forall table,
    Some protoKey ∉ map code items ->
    replacedPrototype (foldl loadItem table items) = replacedPrototype table.
Proof.
  induction items as [|item items IH]; intros table Hk; [done|].
  cbn [foldl map] in *. apply not_elem_of_cons in Hk as [Hne Hk].
  rewrite IH by done. rewrite loadItem_prototype.
  destruct (decide _) as [Heq|]; [|done]. congruence.
Qed.

Lemma foldl_loadItem_own_None (items : list ClassificationItem) (k : jsstring) :
  forall table,
    ownEntries (foldl loadItem table items) !! k = None
    <-> ownEntries table !! k = None
        ∧ (k = [] ∨ k = protoKey ∨ Some k ∉ map code items).
Proof.
  induction items as [|item items IH]; intros table; cbn [foldl map].
  - split; [intros ?; split; [done|right; right; apply not_elem_of_nil]|tauto].
  - rewrite IH, not_elem_of_cons, loadItem_own.
    destruct (decide _) as [(Hc & Hne & Hnp)|Hno].
    + split; [by intros [? _]|]. intros [_ [?|[?|[? _]]]]; congruence.
    + split.
      * intros [H0 [?|[?|Hin]]]; (split; [done|]); auto.
        destruct (decide (k = [])) as [|Hne]; [auto|].
        destruct (decide (k = protoKey)) as [|Hnp]; [auto|].
        right. right. split; [|done]. intros Hc. apply Hno. by repeat split.
      * intros [H0 [?|[?|[_ Hin]]]]; (split; [done|]); auto.
Qed.

(** What looking up a code, other than [__proto__], in the loaded table
    finds when no item had the code [__proto__]. *)
Lemma loadedTable_lookup (items : list ClassificationItem) (k : jsstring) :
  Some protoKey ∉ map code items ->
  lookupEntry (loadedTable items) k
  = match ownEntries (loadedTable items) !! k with
    | Some entry => EntryValue entry
    | None => if isInherited k then MemberValue k else UndefinedValue
    end.
Proof.
  intros Hp. unfold lookupEntry, loadedTable.
  by rewrite foldl_loadItem_prototype_other.
Qed.

Lemma loadedTable_keeps_last (before after : list ClassificationItem)
    (item : ClassificationItem) (k : jsstring) :
  k ≠ [] -> code item = Some k -> Some k ∉ map code after ->
  lookupEntry (loadedTable (before ++ item :: after)) k
  = EntryValue (classificationEntry item).
Proof.
  intros Hk Hcode Hafter. unfold loadedTable. rewrite foldl_app. cbn [foldl].
  set (table := foldl loadItem ∅ before).
  destruct (decide (k = protoKey)) as [->|Hnp].
  - unfold lookupEntry.
    rewrite foldl_loadItem_own_other by auto.
    rewrite foldl_loadItem_prototype_other by done.
    rewrite loadItem_own, loadItem_prototype.
    destruct (decide (_ ∧ _)) as [(_ & _ & ?)|_]; [done|].
    destruct (decide (code item = Some protoKey)) as [_|]; [|done].
    unfold table. rewrite foldl_loadItem_own_other by auto.
    cbn [ownEntries ClassificationTable_empty empty]. rewrite lookup_empty.
    by rewrite bool_decide_eq_true_2.
  - unfold lookupEntry. rewrite foldl_loadItem_own_other by auto.
    rewrite loadItem_own. by destruct (decide _) as [_|Hno]; [|destruct Hno].
Qed.

(** X14.  A first call whose request is answered with well-formed items
    returns and caches the table of the items that have a non-empty code.
    A code carried by several items resolves to the entry of the last of
    them.  When no item has the code [__proto__], a key resolves to nothing
    exactly when it is empty or carried by no item, and is not the name of
    a member of [Object.prototype]; such a name, when no item carries it,
    resolves to the inherited member.  An item with the code [__proto__]
    adds no key: its entry becomes the prototype of the table, so that the
    key [name] then resolves to that entry's name. *)
Theorem classification_table_is_keyed_by_code w data (items : list ClassificationItem) :
  industryClassifications w = None ->
  statisticsFi env (trace w) = Resolved data ->
  classificationItems data = map Some items ->
  fetchIndustryClassifications env w
  = (Ok (loadedTable items),
     {| industryClassifications := Some (loadedTable items);
        trace := trace w ++ [GetClassifications] |})
  ∧ (forall before item after k,
       items = before ++ item :: after ->
       k ≠ [] -> code item = Some k -> Some k ∉ map code after ->
       lookupEntry (loadedTable items) k = EntryValue (classificationEntry item))
  ∧ (Some protoKey ∉ map code items ->
     forall k,
       (lookupEntry (loadedTable items) k = UndefinedValue
        <-> (k = [] ∨ Some k ∉ map code items) ∧ isInherited k = false)
       ∧ (Some k ∉ map code items -> isInherited k = true ->
          lookupEntry (loadedTable items) k = MemberValue k))
  ∧ (forall before item after,
       items = before ++ item :: after ->
       code item = Some protoKey -> Some protoKey ∉ map code after ->
       Some (js "name") ∉ map code items ->
       ownEntries (loadedTable items) !! protoKey = None
       ∧ lookupEntry (loadedTable items) (js "name")
         = StringValue (classificationName item)).
Proof.
  intros Hc Hok Hitems. split; [|split; [|split]].
  - unfold fetchIndustryClassifications. run. rewrite Hc, Hok. run. rewrite Hitems.
    match goal with
    | |- context [forEach cacheItem _ ?w0] =>
        rewrite (forEach_cacheItem_loads items w0 ∅ eq_refl)
    end.
    by run.
  - intros before item after k ->. apply loadedTable_keeps_last.
  - intros Hp k. rewrite (loadedTable_lookup items k Hp).
    pose proof (foldl_loadItem_own_None items k ∅) as Hnone.
    fold (loadedTable items) in Hnone.
    cbn [ownEntries ClassificationTable_empty empty] in Hnone.
    rewrite lookup_empty in Hnone. split.
    + destruct (ownEntries (loadedTable items) !! k) as [entry|] eqn:E.
      * split; [done|]. intros [Hk _]. exfalso.
        assert (@None Classification = None ∧ (k = [] ∨ k = protoKey ∨ Some k ∉ map code items))
          as Habs; [|apply Hnone in Habs; congruence].
        split; [done|]. tauto.
      * destruct (proj1 Hnone eq_refl) as [_ Hk].
        destruct (isInherited k); split; try done; try (by intros [_ ?]).
        intros _. split; [|done]. destruct Hk as [?|[->|?]]; auto.
    + intros Hk Hi.
      replace (ownEntries (loadedTable items) !! k) with (@None Classification).
      * by rewrite Hi.
      * symmetry. apply Hnone. auto.
  - intros before item after -> Hcode Hafter Hname. split.
    { unfold loadedTable. rewrite foldl_loadItem_own_other by auto.
      apply lookup_empty. }
    unfold lookupEntry, loadedTable. rewrite foldl_loadItem_own_other by auto.
    cbn [ownEntries ClassificationTable_empty empty]. rewrite lookup_empty.
    rewrite foldl_app. cbn [foldl].
    rewrite foldl_loadItem_prototype_other by done.
    rewrite loadItem_prototype. destruct (decide _) as [_|]; [|done].
    by vm_compute (bool_decide (js "name" = protoKey)).
Qed.

(** X15.  A [null] item stops the loading: the call answers with an empty
    mapping, but the entries loaded before the [null] stay in the cache,
    and they are what every later call returns, without a new request. *)
Theorem null_item_leaves_a_partial_table w data
    (items : list ClassificationItem) (rest : list (option ClassificationItem)) :
  industryClassifications w = None ->
  statisticsFi env (trace w) = Resolved data ->
  classificationItems data = map Some items ++ None :: rest ->
  let w' := {| industryClassifications := Some (loadedTable items);
               trace := trace w ++ [GetClassifications] |} in
  fetchIndustryClassifications env w = (Ok ∅, w')
  ∧ fetchIndustryClassifications env w' = (Ok (loadedTable items), w').
Proof.
  intros Hc Hok Hitems w'. split.
  - unfold fetchIndustryClassifications. run. rewrite Hc, Hok. run. rewrite Hitems.
    match goal with
    | |- context [forEach cacheItem _ ?w0] =>
        destruct (forEach_cacheItem_stops items rest w0 ∅ eq_refl) as (e0 & ->)
    end.
    by run.
  - by apply fetch_cached.
Qed.

(** ** Registry adapter: the composed address *)

Lemma forallb_whitespace_ink (s : jsstring) :
  endsWithInk s -> forallb isWhiteSpace s = false.
Proof.
  intros (r & c & -> & Hc). rewrite forallb_app. cbn. rewrite Hc.
  by rewrite andb_false_r.
Qed.

Lemma trimStart_ink (s : jsstring) : startsWithInk s -> trimStart s = s.
Proof. intros (c & r & -> & Hc). cbn. by rewrite Hc. Qed.

Lemma trimEnd_ink (s : jsstring) : endsWithInk s -> trimEnd s = s.
Proof.
  intros (r & c & -> & Hc). induction r as [|x r IH].
  - cbn. by rewrite Hc.
  - cbn [app trimEnd]. rewrite IH.
    change (forallb isWhiteSpace (x :: r ++ [c]))
      with (isWhiteSpace x && forallb isWhiteSpace (r ++ [c])).
    rewrite (forallb_whitespace_ink (r ++ [c])) by (by exists r, c).
    by rewrite andb_false_r.
Qed.

Lemma trimEnd_spaces (s spaces : jsstring) :
  endsWithInk s -> forallb isWhiteSpace spaces = true -> trimEnd (s ++ spaces) = s.
Proof.
  intros Hs Hsp. pose proof Hs as (r & c & -> & Hc).
  induction r as [|x r IH].
  - cbn [app trimEnd]. cbn [forallb]. rewrite Hc. cbn.
    destruct spaces as [|y ys]; [done|].
    cbn [trimEnd]. by rewrite Hsp.
  - cbn [app trimEnd].
    change (forallb isWhiteSpace (x :: (r ++ [c]) ++ spaces))
      with (isWhiteSpace x && forallb isWhiteSpace ((r ++ [c]) ++ spaces)).
    rewrite forallb_app, (forallb_whitespace_ink (r ++ [c])) by (by exists r, c).
    rewrite andb_false_l, andb_false_r. f_equal. apply IH. by exists r, c.
Qed.

Lemma stripTrailingComma_app (a b : jsstring) :
  comma ∉ a -> stripTrailingComma (a ++ b) = a ++ stripTrailingComma b.
Proof.
  induction a as [|c a IH]; intros Ha; [done|].
  apply not_elem_of_cons in Ha as [Hc Ha]. cbn [app stripTrailingComma].
  destruct (c =? comma)%N eqn:E; [apply N.eqb_eq in E; congruence|].
  cbn. by rewrite IH.
Qed.

Lemma stripTrailingComma_none (a : jsstring) : comma ∉ a -> stripTrailingComma a = a.
Proof.
  intros Ha. rewrite <- (app_nil_r a) at 1.
  rewrite stripTrailingComma_app by done. cbn. by rewrite app_nil_r.
Qed.

Lemma stripLeadingComma_none (s : jsstring) :
  startsWithInk s -> comma ∉ take 1 s -> stripLeadingComma s = s.
Proof.
  intros (c & r & -> & _) Hc. cbn in *. apply not_elem_of_cons in Hc as [Hc _].
  destruct (c =? comma)%N eqn:E; [apply N.eqb_eq in E; congruence|done].
Qed.

Lemma space_is_white : isWhiteSpace 32 = true.
Proof. reflexivity. Qed.

Lemma comma_is_ink : isWhiteSpace comma = false.
Proof. reflexivity. Qed.

Lemma tidy_present (part : option jsstring) :
  tidyIfPresent part -> orElse part [] = [] ∨ tidy (orElse part []).
Proof. destruct part as [[|c r]|]; cbn; auto. Qed.

Lemma truthy_orElse (part : option jsstring) :
  truthy part = negb (bool_decide (orElse part [] = [])).
Proof. by destruct part as [[|c r]|]. Qed.

Lemma tidy_app (a b : jsstring) : tidy a -> b = [] ∨ tidy b -> tidy (a ++ b).
Proof.
  intros (Ha1 & Ha2 & Ha3) [->|(Hb1 & Hb2 & Hb3)].
  { by rewrite app_nil_r. }
  split; [|split].
  - rewrite elem_of_app. tauto.
  - destruct Ha2 as (c & r & -> & Hc). by exists c, (r ++ b).
  - destruct Hb3 as (r & c & -> & Hc). exists (a ++ r), c. by rewrite app_assoc.
Qed.

Lemma tidy_spaced (a b : jsstring) : tidy a -> b = [] ∨ tidy b ->
  tidy (a ++ (if negb (bool_decide (b = [])) then js " " ++ b else [])).
Proof.
  intros Ha [->|Hb].
  { cbn. by rewrite app_nil_r. }
  assert (Hne : b ≠ []) by (destruct Hb as (_ & (c & r & -> & _) & _); done).
  rewrite bool_decide_false by done. cbn [negb].
  destruct Ha as (Ha1 & Ha2 & Ha3), Hb as (Hb1 & Hb2 & Hb3).
  split; [|split].
  - rewrite !elem_of_app. change (js " ") with [32%N].
    rewrite list_elem_of_singleton. unfold comma. intuition congruence.
  - destruct Ha2 as (c & r & -> & Hc). by eexists c, _.
  - destruct Hb3 as (r & c & -> & Hc). exists (a ++ js " " ++ r), c.
    by rewrite <- !app_assoc.
Qed.

Lemma streetLine_tidy (address : Address) :
  truthy (street address) = true ->
  tidyIfPresent (street address) -> tidyIfPresent (buildingNumber address) ->
  tidyIfPresent (entrance address) -> tidyIfPresent (apartmentNumber address) ->
  tidy (streetLine address).
Proof.
  intros Hst Ts Tb Te Ta. unfold streetLine.
  apply tidy_present in Ts, Tb, Te, Ta.
  rewrite !truthy_orElse in *.
  destruct Ts as [Hs|Ts]; [rewrite Hs in Hst; done|].
  rewrite !app_assoc. apply tidy_spaced; [|done].
  apply tidy_spaced; [|done]. by apply tidy_app.
Qed.

Lemma join_parts (parts : list jsstring) :
  join [] (List.filter (fun part => truthy (Some part)) parts) = concat parts.
Proof.
  induction parts as [|p ps IH]; [done|].
  cbn [List.filter concat]. destruct p as [|c r]; cbn [truthy]; [done|].
  rewrite <- IH. destruct (List.filter _ ps); [|done]. cbn. by rewrite app_nil_r.
Qed.

Lemma composeAddress_unfold (address : Address) :
  composeAddress address
  = stripTrailingComma
      (stripLeadingComma
         (trim (streetLine address ++ js ", " ++ orElse (postCode address) []
                ++ js " " ++ addressCity address))).
Proof.
  unfold composeAddress, streetLine, addressCity. rewrite join_parts.
  cbn [concat]. by rewrite app_nil_r, <- !app_assoc.
Qed.

(** X16.  For an address whose street is present and whose parts are tidy
    (no comma inside, no white space at either end), the composed address
    is the street line followed by [", <postCode> <city>"]; without a city,
    by [", <postCode>"]; with neither, by nothing; and without a postal
    code but with a city, by a comma, two spaces and the city. *)
Theorem address_of_tidy_parts (address : Address) :
  truthy (street address) = true ->
  tidyIfPresent (street address) -> tidyIfPresent (buildingNumber address) ->
  tidyIfPresent (entrance address) -> tidyIfPresent (apartmentNumber address) ->
  tidyIfPresent (postCode address) -> tidyIfPresent (Some (addressCity address)) ->
  composeAddress address
  = streetLine address
    ++ match orElse (postCode address) [], addressCity address with
       | [], [] => []
       | (_ :: _) as code, [] => js ", " ++ code
       | [], (_ :: _) as town => js ",  " ++ town
       | (_ :: _) as code, (_ :: _) as town => js ", " ++ code ++ js " " ++ town
       end.
Proof.
  intros Hst Ts Tb Te Ta Tp Tc.
  pose proof (streetLine_tidy address Hst Ts Tb Te Ta) as (Hl1 & Hl2 & Hl3).
  rewrite composeAddress_unfold.
  set (line := streetLine address) in *.
  apply tidy_present in Tp. cbn [tidyIfPresent] in Tc.
  set (code := orElse (postCode address) []) in *.
  set (town := addressCity address) in *.
  change (js ", ") with [comma; 32%N]. change (js " ") with [32%N].
  change (js ",  ") with [comma; 32%N; 32%N].
  assert (Hlead : forall rest, startsWithInk (line ++ rest) ∧ comma ∉ take 1 (line ++ rest)).
  { intros rest. destruct Hl2 as (c & r & Hline & Hc). rewrite Hline in *. split.
    - by exists c, (r ++ rest).
    - cbn. apply not_elem_of_cons. split; [|apply not_elem_of_nil].
      intros <-. apply Hl1. by left. }
  assert (Hstrip : forall rest,
    endsWithInk rest -> comma ∉ rest ->
    stripTrailingComma (line ++ comma :: rest) = line ++ comma :: rest).
  { intros rest Hink Hno. rewrite stripTrailingComma_app by done.
    cbn [stripTrailingComma]. rewrite N.eqb_refl, (forallb_whitespace_ink rest Hink).
    cbn. by rewrite stripTrailingComma_none. }
  unfold trim.
  destruct Tp as [Hcode|(Hc1 & Hc2 & Hc3)], town as [|t ts] eqn:Htown.
  - (* neither postal code nor city *)
    rewrite Hcode. cbn [app].
    rewrite (trimStart_ink _ (proj1 (Hlead _))).
    replace (line ++ [comma; 32%N; 32%N]) with ((line ++ [comma]) ++ [32%N; 32%N])
      by (by rewrite <- app_assoc).
    rewrite trimEnd_spaces; [|destruct Hl3 as (r & c & -> & Hc); by exists (r ++ [c]), comma|done].
    rewrite (stripLeadingComma_none _ (proj1 (Hlead _)) (proj2 (Hlead _))).
    rewrite stripTrailingComma_app by done. cbn. done.
  - (* a city without a postal code *)
    rewrite Hcode. cbn [app].
    assert (Hink : endsWithInk (32%N :: 32%N :: t :: ts)).
    { destruct Tc as (_ & _ & (r & c & -> & Hc)). by exists (32%N :: 32%N :: r), c. }
    assert (Hno : comma ∉ 32%N :: 32%N :: t :: ts).
    { destruct Tc as (Hno & _). assert (H32 : comma ≠ 32%N) by (unfold comma; lia).
      apply not_elem_of_cons. split; [done|]. apply not_elem_of_cons. by split. }
    rewrite (trimStart_ink _ (proj1 (Hlead _))).
    rewrite trimEnd_ink.
    2: { destruct Hink as (r & c & Hr & Hc). exists (line ++ comma :: r), c.
         rewrite Hr. by rewrite <- app_assoc. }
    rewrite (stripLeadingComma_none _ (proj1 (Hlead _)) (proj2 (Hlead _))).
    destruct code; by rewrite Hstrip.
  - (* a postal code without a city *)
    destruct code as [|k ks] eqn:Hk; [by destruct Hc2 as (? & ? & ? & _)|].
    rewrite app_nil_r.
    rewrite (trimStart_ink _ (proj1 (Hlead _))).
    replace (line ++ [comma; 32%N] ++ (k :: ks) ++ [32%N])
      with ((line ++ [comma; 32%N] ++ k :: ks) ++ [32%N]) by (by rewrite <- !app_assoc).
    rewrite trimEnd_spaces; [| |done].
    2: { destruct Hc3 as (r & c & -> & Hc). exists (line ++ [comma; 32%N] ++ r), c.
         by rewrite <- !app_assoc. }
    rewrite (stripLeadingComma_none _ (proj1 (Hlead _)) (proj2 (Hlead _))).
    apply (Hstrip (32%N :: k :: ks)).
    + destruct Hc3 as (r & c & -> & Hc). by exists (32%N :: r), c.
    + rewrite not_elem_of_cons. by split.
  - (* both *)
    destruct code as [|k ks] eqn:Hk; [by destruct Hc2 as (? & ? & ? & _)|].
    destruct Tc as (Ht1 & Ht2 & Ht3).
    rewrite (trimStart_ink _ (proj1 (Hlead _))).
    rewrite trimEnd_ink.
    2: { destruct Ht3 as (r & c & -> & Hc).
         exists (line ++ [comma; 32%N] ++ (k :: ks) ++ [32%N] ++ r), c.
         by rewrite <- !app_assoc. }
    rewrite (stripLeadingComma_none _ (proj1 (Hlead _)) (proj2 (Hlead _))).
    apply (Hstrip (32%N :: (k :: ks) ++ [32%N] ++ t :: ts)).
    + destruct Ht3 as (r & c & -> & Hc). exists (32%N :: (k :: ks) ++ [32%N] ++ r), c.
      cbn. by rewrite <- !app_assoc.
    + rewrite not_elem_of_cons, !elem_of_app, list_elem_of_singleton. unfold comma in *.
      intuition congruence.
Qed.

(** ** The pipelines: a run without failures *)


Section HappyPath.

Hypothesis translation_answers :
  forall h text, exists answer, deepl env h text = Resolved answer.
Hypothesis embedding_answers : forall h batch, exists items, voyage env h batch = Resolved items.
Hypothesis entities_accepted : forall h table rows, upsertEntities env h table rows = None.
Hypothesis read_back_answers :
  forall h table keys, exists records, selectIds env h table keys = SelectData records.
Hypothesis embeddings_accepted : forall h table rows, upsertEmbeddings env h table rows = None.
Hypothesis batch_size_positive : (0 < BATCH_SIZE env)%Z.

Lemma vectorize_then_store_succeeds {Entity : Type} (entityTable embeddingsTable : string)
    (toRow : Entity -> EntityRow) (naturalKey : Entity -> jsstring)
    fuel (entities : list Entity) texts w :
  length entities ≤ fuel ->
  exists vectors records,
    andThen (vectorizeWithVoyage env texts)
      (fun vectors =>
         storeInSupabase env entityTable embeddingsTable toRow naturalKey fuel
           entities vectors) w
    = (Some (Ok tt),
       logged w
         (vectorizerTrace texts
          ++ [UpsertEntities entityTable (map toRow entities);
              SelectIds entityTable (map naturalKey entities)]
          ++ map (UpsertEmbeddings embeddingsTable)
                 (chunksOf (Z.to_nat (BATCH_SIZE env))
                    (embeddingData naturalKey (idsByNaturalKey records) entities vectors)))).
Proof.
  intros Hfuel.
  destruct (vectorize_paced texts w embedding_answers) as (vectors & Hv).
  destruct (read_back_answers
              (trace (logged w (vectorizerTrace texts))
               ++ [UpsertEntities entityTable (map toRow entities)])
              entityTable (map naturalKey entities)) as (records & Hsel).
  exists vectors, records. unfold andThen. rewrite Hv.
  rewrite (storeInSupabase_accepted entityTable embeddingsTable toRow naturalKey fuel
             entities vectors records (logged w (vectorizerTrace texts))
             batch_size_positive Hfuel
             (entities_accepted _ _ _) Hsel
             (fun h rows => embeddings_accepted h embeddingsTable rows)).
  by rewrite logged_logged.
Qed.


(** X18.  When the configuration is present, the batch size is positive,
    the roster file is read and no embedding or store request fails, the
    investor script ends with exit code 0, its store loop taking at most
    one iteration per investor; for a non-empty roster it makes the paced
    embedding requests for the investors' texts, one upsert of one row per
    investor carrying the whole source object, one read-back of their ids,
    and the embedding upserts in chunks of [BATCH_SIZE]. *)
Theorem investor_run_without_failures fuel w (rawInvestors : list RawInvestor) :
  missingEnvironment env = false ->
  length rawInvestors ≤ fuel ->
  investorsJson env = Resolved rawInvestors ->
  (investorMain env fuel w).1 = Some 0
  ∧ (rawInvestors ≠ [] ->
     exists vectors records,
       (investorMain env fuel w).2
       = logged w
           (vectorizerTrace (map createInvestorText rawInvestors)
            ++ [UpsertEntities "investor"
                  (map (fun investor => InvestorRow (investorId investor) investor)
                       rawInvestors);
                SelectIds "investor" (map investorId rawInvestors)]
            ++ map (UpsertEmbeddings "investor_embeddings")
                   (chunksOf (Z.to_nat (BATCH_SIZE env))
                      (embeddingData investor_id (idsByNaturalKey records)
                         (map processInvestorData rawInvestors) vectors)))).
Proof.
  intros Henv Hfuel Hjson.
  assert (Hpipe :
    investorPipeline env fuel w
    = if decide (length rawInvestors = 0) then (Some (Ok tt), w)
      else andThen (vectorizeWithVoyage env (map createInvestorText rawInvestors))
                   (fun vectors =>
                      storeInvestors env fuel (map processInvestorData rawInvestors)
                                     vectors) w).
  { unfold investorPipeline, loadInvestorsFromJSON. rewrite Henv, Hjson.
    unfold andThen at 1. run. by destruct (decide _). }
  unfold investorMain, runMain. rewrite Hpipe.
  destruct (decide (length rawInvestors = 0)) as [Hz|Hz].
  { split; [done|]. intros Hne. by destruct rawInvestors. }
  destruct (vectorize_then_store_succeeds "investor" "investor_embeddings"
              (fun investor => InvestorRow (investor_id investor) (investorDetails investor))
              investor_id fuel
              (map processInvestorData rawInvestors)
              (map createInvestorText rawInvestors) w
              ltac:(by rewrite length_map))
    as (vectors & records & Hrun).
  unfold storeInvestors. rewrite Hrun.
  split; [done|]. intros _. exists vectors, records.
  cbn [snd]. by rewrite !map_map.
Qed.

End HappyPath.

(** ** Registry adapter: record shapes and translated labels *)

(** X19.  The flat and the nested shape of a record are read alike: a
    record whose business id is a plain string, with its registration date
    beside it, passes the filter and is normalized exactly as the record
    that carries the same id and date inside a nested business id. *)
Theorem flat_and_nested_records_normalize_alike
    (idText : jsstring) (date : option jsstring) (recordNames : option (list NameEntry))
    (line : option MainBusinessLine) (recordAddresses : option (list Address))
    (classifications : ClassificationTable) w :
  idText ≠ [] ->
  let flat := {| businessId := IdFlat idText; registrationDate := date;
                 names := recordNames; mainBusinessLine := line;
                 addresses := recordAddresses |} in
  let nested := {| businessId := IdNested {| value := Some idText;
                                             idRegistrationDate := date |};
                   registrationDate := None;
                   names := recordNames; mainBusinessLine := line;
                   addresses := recordAddresses |} in
  isValidCompany env flat = isValidCompany env nested
  ∧ processCompany env classifications flat w
    = processCompany env classifications nested w.
Proof.
  intros Hne flat nested. destruct idText as [|c r]; [done|]. split.
  - unfold isValidCompany, registrationYear, nestedRegistrationDate, businessLineType.
    cbn. by destruct date as [[|? ?]|].
  - unfold processCompany, extractRegistrationDate, nestedRegistrationDate,
      extractBusinessId, businessLineType, extractName, extractDescription,
      extractAddress.
    cbn. by destruct date as [[|? ?]|].
Qed.




(** ** Checking tidiness of concrete parts *)

Lemma tidyCheck_sound (s : jsstring) : tidyCheck s = true -> tidy s.
Proof.
  unfold tidyCheck. intros [[H1 H2]%andb_true_iff H3]%andb_true_iff.
  split; [|split].
  - intros Hin. apply negb_true_iff in H1.
    assert (existsb (fun c => (c =? comma)%N) s = true); [|congruence].
    apply existsb_exists. exists comma. split; [by apply list_elem_of_In|].
    apply N.eqb_refl.
  - destruct s as [|c r]; [done|]. exists c, r. split; [done|]. by apply negb_true_iff.
  - destruct (rev s) as [|c r] eqn:E; [done|]. exists (rev r), c. split.
    + rewrite <- (rev_involutive s), E. done.
    + by apply negb_true_iff.
Qed.

(** ** Translator: the fallback *)

(** X23.  For a text that is not passed through, a rejected translation
    request makes [translateToEnglish] return the fallback dictionary's
    entry for the exact text when there is one; without an entry it
    returns the text as it is, unless the text names a member of
    [Object.prototype]: then it throws a [TypeError].  In each case it has
    made exactly one request. *)
Theorem failed_translation_falls_back_to_the_dictionary text w e :
  text ≠ [] -> ¬ (noDiacritics text ∧ plainAscii text) ->
  deepl env (trace w) text = Rejected e ->
  translateToEnglish env text w
  = (match translations !! text with
     | Some entry => Ok entry
     | None => if isInherited text then Throw substringTypeError else Ok text
     end,
     logged w [PostTranslate text]).
Proof.
  intros Hne Hnot Hrej. rewrite (translate_falls_back env text w e Hne Hnot Hrej).
  rewrite translateFinnishToEnglishBasic_lookup.
  destruct (translations !! text); [done|]. by destruct (isInherited text).
Qed.

End MoreProperties.

(** * The properties on the sample environments *)

Lemma healthy_voyage_in_order (h : list (@Event (list Z))) (batch : list jsstring) :
  exists items,
    voyage healthy h batch = Resolved items
    ∧ Forall2 (fun text vector => vector = [Z.of_nat (length text)])
              batch (map embedding items).
Proof.
  exists (map lengthEmbedding batch). split; [reflexivity|].
  induction batch as [|text batch IH]; constructor; [reflexivity|exact IH].
Qed.

Lemma vectorize_keeps_length_and_order_witness :
  exists vectors evs,
    vectorizeWithVoyage healthy sampleTexts start = (Ok vectors, logged start evs)
    ∧ length vectors = 2
    ∧ embeddingRequests evs = [sampleTexts].
Proof.
  destruct (vectorize_keeps_length_and_order healthy
              (fun text vector => vector = [Z.of_nat (length text)])
              healthy_voyage_in_order sampleTexts start)
    as (vectors & evs & Hrun & Hlen & _ & Hreq & _).
  exists vectors, evs. split; [exact Hrun|]. split; [exact Hlen|exact Hreq].
Defined.

(** C3, as stated, fails: with the classification service unreachable, the
    first call returns an empty mapping and leaves the cache unset, and the
    second call makes the request again. *)
Lemma failed_classification_fetch_is_retried :
  let first := fetchIndustryClassifications servicesDown start in
  let second := fetchIndustryClassifications servicesDown first.2 in
  first.1 = Ok ∅
  ∧ industryClassifications first.2 = None
  ∧ trace first.2 = [GetClassifications]
  ∧ trace second.2 = [GetClassifications; GetClassifications].
Proof. vm_compute. repeat split. Qed.

Lemma classification_cache_memoizes_loaded_table_witness :
  fetchIndustryClassifications servicesDown start
  = (Ok ∅, logged start [GetClassifications])
  ∧ trace (fetchIndustryClassifications servicesDown (logged start [GetClassifications])).2
    = [GetClassifications; GetClassifications].
Proof.
  destruct (classification_cache_memoizes_loaded_table servicesDown) as (_ & _ & H).
  destruct (H start "ECONNREFUSED" eq_refl eq_refl) as (H1 & _ & H2).
  split; [exact H1|exact H2].
Defined.


(** The specification's scenario: three records, one without an industry
    code, give exactly two companies. *)
Lemma fetched_companies_pass_both_filters_witness :
  length sampleCompanies = 2
  ∧ exists raws,
      Forall2 normalizes raws sampleCompanies
      ∧ withoutIndustryCode ∉ raws.
Proof.
  split; [reflexivity|].
  destruct (fetched_companies_pass_both_filters healthy 500 start
              sampleCompanies sampleFetched)
    as (k & raws & _ & _ & Hn & _ & Hex).
  - vm_compute. reflexivity.
  - exists raws. split; [exact Hn|]. apply Hex. right. reflexivity.
Defined.

Lemma translate_pass_through_witness :
  translateToEnglish healthy (js "Manufacturing") start = (Ok (js "Manufacturing"), start).
Proof.
  apply (proj1 (translate_pass_through healthy start)). right. split.
  - apply finnishChars_test_noDiacritics. vm_compute. reflexivity.
  - apply englishPattern_test_plainAscii. vm_compute. reflexivity.
Defined.

Lemma rejected_embedding_request_aborts_the_run_witness :
  (companyMain embeddingDown 0 start).1 = Some 1
  ∧ Forall (fun ev => isStoreEvent ev = false) (trace (companyMain embeddingDown 0 start).2).
Proof.
  destruct (rejected_embedding_request_aborts_the_run embeddingDown) as (_ & H & _).
  destruct (H 0 start (trace sampleFetched) sampleTexts []
              "Request failed with status code 429") as (Hexit & _ & Hstore).
  - vm_compute. reflexivity.
  - reflexivity.
  - split; [exact Hexit|].
    replace (trace (companyMain embeddingDown 0 start).2)
      with (trace sampleFetched ++ [PostEmbeddings sampleTexts])
      by (vm_compute; reflexivity).
    exact Hstore.
Defined.

Lemma empty_source_exits_successfully_witness :
  companyMain emptyRegistry 0 start = (Some 0, emptyFetched)
  ∧ investorMain emptyRegistry 0 start = (Some 0, start).
Proof.
  destruct (empty_source_exits_successfully emptyRegistry) as (Hcompany & Hinvestor).
  split.
  - apply (Hcompany 0 start emptyFetched); [reflexivity|vm_compute; reflexivity].
  - apply (Hinvestor 0 start); reflexivity.
Defined.

(** * The further properties on the sample environments *)

Lemma missing_configuration_is_fatal_before_any_request_witness :
  companyMain unconfigured 0 start = (Some 1, start)
  ∧ investorMain unconfigured 0 start = (Some 1, start).
Proof.
  apply (missing_configuration_is_fatal_before_any_request unconfigured 0 start).
  reflexivity.
Defined.


Lemma translation_of_a_label_is_never_empty_witness :
  exists evs,
    (translateToEnglish healthy (js "Sähköasennus") start).2 = logged start evs
    ∧ (evs = [] ∨ evs = [PostTranslate (js "Sähköasennus")])
    ∧ exists t, (translateToEnglish healthy (js "Sähköasennus") start).1 = Ok t ∧ t ≠ [].
Proof.
  destruct (translation_of_a_label_is_never_empty healthy (js "Sähköasennus") start)
    as (evs & Hrun & Hevs & Hres).
  - vm_compute. discriminate.
  - exists evs. split; [exact Hrun|]. split; [exact Hevs|].
    destruct (translateToEnglish healthy (js "Sähköasennus") start).1 as [t|e] eqn:E.
    + exists t. split; [reflexivity|exact Hres].
    + vm_compute in E. discriminate.
Defined.

Lemma translation_service_answer_is_used_witness :
  translateToEnglish healthy (js "Sähköasennus") start
  = (Ok (js "Electrical installation"), logged start [PostTranslate (js "Sähköasennus")]).
Proof.
  apply (translation_service_answer_is_used healthy (js "Sähköasennus") start
           (Some (js "Electrical installation"))).
  - vm_compute. discriminate.
  - intros [Hd _]. apply finnishChars_test_false in Hd.
    vm_compute in Hd. discriminate.
  - reflexivity.
Defined.

Lemma fallback_dictionary_is_idempotent_witness :
  translateFinnishToEnglishBasic (js "Tuntematon ala") = Text (js "Tuntematon ala")
  ∧ translateFinnishToEnglishBasic (js "constructor") = PrototypeMember (js "constructor").
Proof.
  destruct (fallback_dictionary_is_idempotent (js "Tuntematon ala")) as (_ & Hplain & _).
  destruct (fallback_dictionary_is_idempotent (js "constructor")) as (_ & _ & Hmember).
  split.
  - apply Hplain; vm_compute; reflexivity.
  - apply Hmember. vm_compute. reflexivity.
Defined.

Lemma vectorizer_waits_between_batches_witness :
  exists vectors,
    vectorizeWithVoyage healthy sampleTexts start
    = (Ok vectors, logged start (vectorizerTrace sampleTexts)).
Proof.
  apply (proj1 (vectorizer_waits_between_batches healthy sampleTexts start
                  (fun h batch => ex_intro _ (map lengthEmbedding batch) eq_refl))).
Defined.

Lemma read_back_map_keeps_last_record_witness :
  getMember
    (idsByNaturalKey [ {| rowId := 1%Z; natural_key := js "1234567-8" |};
                       {| rowId := 2%Z; natural_key := js "1234567-8" |};
                       {| rowId := 3%Z; natural_key := js "7654321-0" |} ])
    (js "1234567-8")
  = Own 2%Z.
Proof.
  apply (proj1 read_back_map_keeps_last_record
           [ {| rowId := 1%Z; natural_key := js "1234567-8" |} ]
           [ {| rowId := 3%Z; natural_key := js "7654321-0" |} ]
           {| rowId := 2%Z; natural_key := js "1234567-8" |}).
  - vm_compute. discriminate.
  - intros H%list_elem_of_singleton. vm_compute in H. discriminate.
Defined.

Lemma embedding_rows_without_alignment_witness :
  {| entity_id := Own 1%Z; embeddings := None |}
  ∈ embeddingData (fun company => businessIdToString (companyBusinessId company))
                  (idsByNaturalKey [ {| rowId := 1%Z; natural_key := js "1234567-8" |} ])
                  sampleCompanies (@nil (list Z)).
Proof.
  destruct (embedding_rows_without_alignment
              (fun company => businessIdToString (companyBusinessId company))
              (idsByNaturalKey [ {| rowId := 1%Z; natural_key := js "1234567-8" |} ])
              sampleCompanies (@nil (list Z))) as (_ & _ & H).
  destruct sampleCompanies as [|company rest] eqn:Hcompanies; [discriminate|].
  injection Hcompanies as <- _.
  apply (H 0%nat _ eq_refl eq_refl). vm_compute. reflexivity.
Defined.

Lemma store_requests_when_accepted_witness :
  exists evs,
    storeCompanies healthy 2 sampleCompanies sampleVectors start
    = (Some (Ok tt), logged start evs)
    ∧ length evs = 3%nat.
Proof.
  eexists. split.
  - apply (store_requests_when_accepted healthy "company" "company_embeddings"
             (fun company => CompanyRow (companyBusinessId company) (companyName company)
                                        (details company))
             (fun company => businessIdToString (companyBusinessId company))
             2 sampleCompanies sampleVectors
             [ {| rowId := 1%Z; natural_key := js "1234567-8" |} ] start).
    + reflexivity.
    + vm_compute. lia.
    + reflexivity.
    + vm_compute. reflexivity.
    + intros h rows. reflexivity.
  - vm_compute. reflexivity.
Defined.

Lemma store_errors_are_fatal_witness :
  (storeCompanies servicesDown 0 sampleCompanies sampleVectors start).1
  = Some (Throw "ECONNREFUSED").
Proof.
  destruct (store_errors_are_fatal servicesDown "company" "company_embeddings"
              (fun company => CompanyRow (companyBusinessId company) (companyName company)
                                         (details company))
              (fun company => businessIdToString (companyBusinessId company))
              0 sampleCompanies sampleVectors start) as (H & _).
  unfold storeCompanies. rewrite (H "ECONNREFUSED" eq_refl). reflexivity.
Defined.


Lemma fetched_companies_are_complete_witness :
  Forall (fun company => companyName company ≠ [] ∧ industryCode company ≠ [])
         sampleCompanies.
Proof.
  eapply Forall_impl.
  - apply (fetched_companies_are_complete healthy 500 start sampleCompanies sampleFetched).
    vm_compute. reflexivity.
  - intros company (Hname & Hcode & _). split; [exact Hname|exact Hcode].
Defined.

Lemma classification_failure_falls_back_to_code_labels_witness :
  Forall (fun company =>
            categoryName (details company)
            = if isInherited (industryCode company)
              then memberName (industryCode company)
              else Some (js "Industry Code: " ++ industryCode company))
         classificationDownCompanies
  ∧ length classificationDownCompanies = 2%nat.
Proof.
  split; [|reflexivity].
  apply (classification_failure_falls_back_to_code_labels classificationDown 500 start
           "ETIMEDOUT" classificationDownCompanies classificationDownFetched).
  - reflexivity.
  - reflexivity.
  - vm_compute. reflexivity.
Defined.

Lemma classification_table_is_keyed_by_code_witness :
  fetchIndustryClassifications healthy start
  = (Ok (loadedTable [electricalInstallation; computerProgramming]),
     {| industryClassifications :=
          Some (loadedTable [electricalInstallation; computerProgramming]);
        trace := [GetClassifications] |}).
Proof.
  apply (proj1 (classification_table_is_keyed_by_code healthy start sampleClassifications
                  [electricalInstallation; computerProgramming]
                  eq_refl eq_refl eq_refl)).
Defined.

Lemma null_item_leaves_a_partial_table_witness :
  fetchIndustryClassifications tableWithNull start
  = (Ok ∅, {| industryClassifications := Some (loadedTable [electricalInstallation]);
              trace := [GetClassifications] |}).
Proof.
  apply (proj1 (null_item_leaves_a_partial_table tableWithNull start
                  (ClassificationArray [Some electricalInstallation; None;
                                        Some computerProgramming])
                  [electricalInstallation] [Some computerProgramming]
                  eq_refl eq_refl eq_refl)).
Defined.

Lemma tidyIfPresent_check (part : option jsstring) :
  match part with Some (c :: r) => tidyCheck (c :: r) | _ => true end = true ->
  tidyIfPresent part.
Proof.
  destruct part as [[|c r]|]; cbn [tidyIfPresent]; [done| |done].
  apply tidyCheck_sound.
Qed.

Lemma address_of_tidy_parts_witness :
  composeAddress mannerheimintie = js "Mannerheimintie10, 00100 Helsinki".
Proof.
  rewrite (address_of_tidy_parts mannerheimintie).
  - vm_compute. reflexivity.
  - reflexivity.
  - apply tidyIfPresent_check. vm_compute. reflexivity.
  - apply tidyIfPresent_check. vm_compute. reflexivity.
  - apply tidyIfPresent_check. vm_compute. reflexivity.
  - apply tidyIfPresent_check. vm_compute. reflexivity.
  - apply tidyIfPresent_check. vm_compute. reflexivity.
  - apply tidyIfPresent_check. vm_compute. reflexivity.
Defined.


Lemma investor_run_without_failures_witness :
  (investorMain oneInvestor 1 start).1 = Some 0%nat
  ∧ exists vectors records,
      (investorMain oneInvestor 1 start).2
      = logged start
          (vectorizerTrace (map createInvestorText [exampleInvestor])
           ++ [UpsertEntities "investor"
                 [InvestorRow (js "inv-001") exampleInvestor];
               SelectIds "investor" [js "inv-001"]]
           ++ map (UpsertEmbeddings "investor_embeddings")
                  (chunksOf (Z.to_nat (BATCH_SIZE oneInvestor))
                     (embeddingData investor_id (idsByNaturalKey records)
                        (map processInvestorData [exampleInvestor]) vectors))).
Proof.
  destruct (investor_run_without_failures oneInvestor
              (fun h batch => ex_intro _ (map lengthEmbedding batch) eq_refl)
              (fun h table rows => eq_refl)
              (fun h table keys => ex_intro _ _ eq_refl)
              (fun h table rows => eq_refl)
              eq_refl
              1 start [exampleInvestor] eq_refl (le_n 1) eq_refl)
    as (Hexit & Htrace).
  split; [exact Hexit|]. apply Htrace. discriminate.
Defined.

Lemma flat_and_nested_records_normalize_alike_witness :
  processCompany healthy ∅ rakennusOy start
  = processCompany healthy ∅
      {| businessId := IdNested {| value := Some (js "7654321-0");
                                   idRegistrationDate := Some (js "2022-06-15") |};
         registrationDate := None;
         names := names rakennusOy;
         mainBusinessLine := mainBusinessLine rakennusOy;
         addresses := None |}
      start.
Proof.
  apply (proj2 (flat_and_nested_records_normalize_alike healthy (js "7654321-0")
                  (Some (js "2022-06-15")) (names rakennusOy)
                  (mainBusinessLine rakennusOy) None ∅ start
                  ltac:(vm_compute; discriminate))).
Defined.


Lemma store_pairs_each_id_with_its_vector_witness :
  exists evs,
    storeCompanies healthy 2 sampleCompanies sampleVectors start
    = (Some (Ok tt), logged start evs)
    ∧ embeddingRowsWritten evs
      = [ {| entity_id := Own 1%Z; embeddings := Some [111%Z] |} ].
Proof.
  destruct (store_pairs_each_id_with_its_vector healthy "company" "company_embeddings"
              (fun company => CompanyRow (companyBusinessId company) (companyName company)
                                         (details company))
              (fun company => businessIdToString (companyBusinessId company))
              2 sampleCompanies sampleVectors
              [ {| rowId := 1%Z; natural_key := js "1234567-8" |} ] start)
    as (evs & Hrun & Hrows & _).
  - reflexivity.
  - reflexivity.
  - vm_compute. lia.
  - reflexivity.
  - vm_compute. reflexivity.
  - intros h rows. reflexivity.
  - exists evs. split; [exact Hrun|]. rewrite Hrows. vm_compute. reflexivity.
Defined.

(** Started with [BATCH_SIZE=-10], the company writer is still running
    after three iterations: the one row it has is never sent. *)
Lemma negative_batch_size_never_ends_witness :
  storeCompanies negativeBatch 3 sampleCompanies sampleVectors start
  = (None,
     logged start
       [ UpsertEntities "company"
           (map (fun company => CompanyRow (companyBusinessId company)
                                           (companyName company) (details company))
                sampleCompanies);
         SelectIds "company"
           (map (fun company => businessIdToString (companyBusinessId company))
                sampleCompanies);
         UpsertEmbeddings "company_embeddings" [];
         UpsertEmbeddings "company_embeddings" [];
         UpsertEmbeddings "company_embeddings" [] ]).
Proof.
  apply (negative_batch_size_never_ends negativeBatch "company" "company_embeddings"
           (fun company => CompanyRow (companyBusinessId company) (companyName company)
                                      (details company))
           (fun company => businessIdToString (companyBusinessId company))
           3 sampleCompanies sampleVectors
           [ {| rowId := 1%Z; natural_key := js "1234567-8" |} ] start).
  - reflexivity.
  - reflexivity.
  - vm_compute. reflexivity.
  - intros h rows. reflexivity.
  - vm_compute. discriminate.
Defined.

Lemma failed_translation_falls_back_to_the_dictionary_witness :
  translateToEnglish servicesDown (js "Sähköasennus") start
  = (Ok (js "Electrical installation"), logged start [PostTranslate (js "Sähköasennus")])
  ∧ translateToEnglish servicesDown (js "__proto__") start
    = (Throw substringTypeError, logged start [PostTranslate (js "__proto__")]).
Proof.
  split.
  - rewrite (failed_translation_falls_back_to_the_dictionary servicesDown
               (js "Sähköasennus") start "Request failed with status code 429").
    + vm_compute. reflexivity.
    + vm_compute. discriminate.
    + intros [Hd _]. apply finnishChars_test_false in Hd. vm_compute in Hd. discriminate.
    + reflexivity.
  - rewrite (failed_translation_falls_back_to_the_dictionary servicesDown
               (js "__proto__") start "Request failed with status code 429").
    + vm_compute. reflexivity.
    + vm_compute. discriminate.
    + intros [_ Ha]. apply englishPattern_test_true in Ha; [|vm_compute; discriminate].
      vm_compute in Ha. discriminate.
    + reflexivity.
Defined.
